(** * BIB-LINKS: cross-linking in-text citations against a bibliography

    A shallow embedding of [process_xhtml_files] of [app.py] and of the
    Python library functions it relies on, followed by the properties of
    the matching-and-rewriting engine.

    Text is a list of characters.  A character is a code point below 256
    (the Latin-1 range of Unicode); the character classes of the [re]
    module and the [str] methods are written out for that range. *)

From Stdlib Require Import Ascii String List Arith Lia Bool.
From stdpp Require Import base option list strings gmap.

Local Open Scope nat_scope.

#[local] Set Warnings "-register-all".

Abbreviation str := (list ascii).

(** A literal of the source, e.g. [txt "li"]. *)
Definition txt (s : string) : str := list_ascii_of_string s.
Arguments txt : simpl never.

(** ** Python [str] methods and character classes *)
Module PyStr.

Definition code (c : ascii) : nat := nat_of_ascii c.

Definition in_range (lo hi : nat) (c : ascii) : bool :=
  (lo <=? code c) && (code c <=? hi).

(** [\d]: decimal digits. *)
Definition is_digit (c : ascii) : bool := in_range 48 57 c.

(** [[A-Z]] and [[a-z]]. *)
Definition is_upper_az (c : ascii) : bool := in_range 65 90 c.
Definition is_lower_az (c : ascii) : bool := in_range 97 122 c.

(** [[a-zA-Z']]. *)
Definition is_name_char (c : ascii) : bool :=
  is_lower_az c || is_upper_az c || (code c =? 39).

(** [\s] and [str.isspace]: tab, LF, VT, FF, CR, the separators
    0x1c-0x1f, space, NEL and the no-break space. *)
Definition isspace (c : ascii) : bool :=
  in_range 9 13 c || in_range 28 32 c || (code c =? 133) || (code c =? 160).

(** [\w]: alphanumeric characters and the underscore. *)
Definition is_word (c : ascii) : bool :=
  is_digit c || is_upper_az c || is_lower_az c || (code c =? 95)
  || (code c =? 170) || in_range 178 179 c || (code c =? 181)
  || in_range 185 186 c || in_range 188 190 c
  || in_range 192 214 c || in_range 216 246 c || in_range 248 255 c.

(** [.] without DOTALL: anything but a line feed. *)
Definition not_newline (c : ascii) : bool := negb (code c =? 10).

Definition lower_char (c : ascii) : ascii :=
  if is_upper_az c || in_range 192 214 c || in_range 216 222 c
  then ascii_of_nat (code c + 32) else c.

(** [s.lower()] *)
Definition lower (s : str) : str := map lower_char s.

Fixpoint lstrip (s : str) : str :=
  match s with
  | c :: s' => if isspace c then lstrip s' else s
  | [] => []
  end.

Definition rstrip (s : str) : str := rev (lstrip (rev s)).

(** [s.strip()] *)
Definition strip (s : str) : str := rstrip (lstrip s).

(** [s[i:j]] for [0 <= i], [0 <= j]. *)
Definition slice (s : str) (i j : nat) : str := take (j - i) (drop i s).

(** [s.split(sep)] for a one-character separator: never empty. *)
Fixpoint split_on (sep : ascii) (s : str) : list str :=
  match s with
  | [] => [[]]
  | c :: s' =>
      if Ascii.eqb c sep then [] :: split_on sep s'
      else match split_on sep s' with
           | w :: ws => (c :: w) :: ws
           | [] => [[c]]
           end
  end.

(** [s.split()]: the maximal runs of non-whitespace characters. *)
Fixpoint split_ws_aux (cur : str) (s : str) : list str :=
  match s with
  | [] => match cur with [] => [] | _ => [rev cur] end
  | c :: s' =>
      if isspace c
      then match cur with
           | [] => split_ws_aux [] s'
           | _ => rev cur :: split_ws_aux [] s'
           end
      else split_ws_aux (c :: cur) s'
  end.

Definition split_ws (s : str) : list str := split_ws_aux [] s.

(** [l[0]], raising IndexError ([None]) on an empty list. *)
Definition item0 {A} (l : list A) : option A := head l.

Fixpoint starts_with (p s : str) : bool :=
  match p, s with
  | [], _ => true
  | a :: p', b :: s' => Ascii.eqb a b && starts_with p' s'
  | _ :: _, [] => false
  end.

(** The scan of [s.replace(old, new)] for a non-empty [old]: [skip]
    counts the characters still covered by the occurrence replaced
    last. *)
Fixpoint replace_scan (old new : str) (skip : nat) (s : str) : str :=
  match s with
  | [] => []
  | c :: s' =>
      match skip with
      | S k => replace_scan old new k s'
      | O =>
          if starts_with old s
          then new ++ replace_scan old new (length old - 1) s'
          else c :: replace_scan old new 0 s'
      end
  end.

(** [s.replace(old, new)]: every non-overlapping occurrence, leftmost
    first; an empty [old] matches before every character and at the
    end. *)
Definition replace (old new : str) (s : str) : str :=
  match old with
  | [] => new ++ flat_map (fun c => c :: new) s
  | _ :: _ => replace_scan old new 0 s
  end.

End PyStr.

(** ** The regular expressions of the source

    The matchers follow the backtracking search of Python's [re]: a
    greedy quantifier tries the longest repetition first and gives
    characters back one at a time, a lazy one starts from the shortest. *)
Module Re.
Import PyStr.

Definition class_at (P : ascii -> bool) (text : str) (i : nat) : bool :=
  match text !! i with
  | Some c => P c
  | None => false
  end.

(** [\b] at position [i]. *)
Definition word_boundary (text : str) (i : nat) : bool :=
  xorb (match i with O => false | S j => class_at is_word text j end)
       (class_at is_word text i).

Fixpoint run_length (P : ascii -> bool) (s : str) : nat :=
  match s with
  | c :: s' => if P c then S (run_length P s') else 0
  | [] => 0
  end.

(** How many characters from position [i] on are in the class [P]. *)
Definition class_run (P : ascii -> bool) (text : str) (i : nat) : nat :=
  run_length P (drop i text).

(** Greedy repetition: [k n] continues the match after [n]
    repetitions; [hi], [hi - 1], ..., [lo] are tried in this order. *)
Fixpoint greedy {A} (lo hi : nat) (k : nat -> option A) : option A :=
  if hi <? lo then None
  else match k hi with
       | Some r => Some r
       | None =>
           match hi with
           | O => None
           | S hi' => greedy lo hi' k
           end
       end.

(** Lazy repetition: [n], [n + 1], ..., [n + more] in this order. *)
Fixpoint lazy {A} (more n : nat) (k : nat -> option A) : option A :=
  match k n with
  | Some r => Some r
  | None =>
      match more with
      | O => None
      | S more' => lazy more' (S n) k
      end
  end.

(** [C?] (greedy) at position [j] for a character class [C]. *)
Definition optional {A} (P : ascii -> bool) (text : str) (j : nat)
    (k : nat -> option A) : option A :=
  greedy 0 (if class_at P text j then 1 else 0) (fun n => k (j + n)).

(** [(\d{4}\s*[a-z]?)\b] at position [i]: the end of the match. *)
Definition year_group (text : str) (i : nat) : option nat :=
  if 4 <=? class_run is_digit text i then
    greedy 0 (class_run isspace text (i + 4)) (fun w =>
      optional is_lower_az text (i + 4 + w) (fun e =>
        if word_boundary text e then Some e else None))
  else None.

(** A match object: the span of the match and the ends of its groups. *)
Record match_obj := MatchObj {
  m_start : nat;     (* match.start(0), and start of group 1 *)
  m_g1_end : nat;    (* match.end(1) *)
  m_g2_start : nat;  (* match.start(2) *)
  m_end : nat        (* match.end(0), and end of group 2 *)
}.

Definition group0 (text : str) (m : match_obj) : str :=
  slice text (m_start m) (m_end m).
Definition group1 (text : str) (m : match_obj) : str :=
  slice text (m_start m) (m_g1_end m).
Definition group2 (text : str) (m : match_obj) : str :=
  slice text (m_g2_start m) (m_end m).

(** [citation_pattern = ^(.*?)\b(\d{4}\s*[a-z]?)\b], tried at the start
    position [s]; [^] holds at position 0 only. *)
Definition citation_pattern_at (text : str) (s : nat) : option match_obj :=
  if s =? 0 then
    lazy (class_run not_newline text 0) 0 (fun i =>
      if word_boundary text i then
        match year_group text i with
        | Some e => Some (MatchObj 0 i i e)
        | None => None
        end
      else None)
  else None.

(** [pattern.search(text)]: the first start position, from the left,
    at which the pattern matches. *)
Definition search (at_ : str -> nat -> option match_obj) (text : str)
    : option match_obj :=
  lazy (length text) 0 (fun s => at_ text s).

(** [search_pattern = \b([A-Z][a-zA-Z']+)\s+(\d{4}\s*[a-z]?)\b] at the
    start position [s]. *)
Definition search_pattern_at (text : str) (s : nat) : option match_obj :=
  if word_boundary text s && class_at is_upper_az text s then
    greedy 1 (class_run is_name_char text (S s)) (fun n =>
      let a := S s + n in
      greedy 1 (class_run isspace text a) (fun w =>
        match year_group text (a + w) with
        | Some e => Some (MatchObj s a (a + w) e)
        | None => None
        end))
  else None.

(** The scan of [pattern.finditer(text)]: [rest] is the text from
    [pos] on, [skip] counts the characters still inside the last
    match. *)
Fixpoint finditer_scan (at_ : str -> nat -> option match_obj) (text : str)
    (rest : str) (pos skip : nat) : list match_obj :=
  match rest with
  | [] => []
  | _ :: rest' =>
      match skip with
      | S k => finditer_scan at_ text rest' (S pos) k
      | O =>
          match at_ text pos with
          | Some m => m :: finditer_scan at_ text rest' (S pos) (m_end m - pos - 1)
          | None => finditer_scan at_ text rest' (S pos) 0
          end
      end
  end.

(** [list(pattern.finditer(text))] for a pattern that matches no empty
    string: the non-overlapping matches, left to right. *)
Definition finditer (at_ : str -> nat -> option match_obj) (text : str)
    : list match_obj :=
  finditer_scan at_ text text 0 0.

(** [re.sub(r'\s', '', s)] *)
Definition remove_whitespace (s : str) : str :=
  filter (fun c => isspace c = false) s.

(** [entity_pattern = (&#?\w+;)] at the start of [s]: the length of
    the match. *)
Definition entity_pattern_len (s : str) : option nat :=
  if class_at (Ascii.eqb "&") s 0 then
    optional (Ascii.eqb "#") s 1 (fun i =>
      greedy 1 (class_run is_word s i) (fun n =>
        if class_at (Ascii.eqb ";") s (i + n) then Some (i + n + 1) else None))
  else None.

(** The scan of [pattern.sub(repl, s)] with a function [repl] that is
    called once per match, left to right, and may change a state:
    [len_at] gives the length of the match at the start of a text. *)
Fixpoint sub_scan {St} (len_at : str -> option nat)
    (repl : str -> St -> str * St) (skip : nat) (s : str) (st : St)
    : str * St :=
  match s with
  | [] => ([], st)
  | c :: s' =>
      match skip with
      | S k => sub_scan len_at repl k s' st
      | O =>
          match len_at s with
          | Some n =>
              let '(r, st1) := repl (take n s) st in
              let '(out, st2) := sub_scan len_at repl (n - 1) s' st1 in
              (r ++ out, st2)
          | None =>
              let '(out, st1) := sub_scan len_at repl 0 s' st in
              (c :: out, st1)
          end
      end
  end.

End Re.

(** ** The parsed document (BeautifulSoup)

    An element of the tree is a string or a tag with its attributes and
    contents, in document order.  Comments, CDATA sections and processing
    instructions are not modelled.  A soup is the list of the top-level
    elements of a document. *)
Module Soup.

Inductive node :=
| NavigableString (s : str)
| Tag (name : str) (attrs : list (str * str)) (contents : list node).

Abbreviation soup := (list node).

(** [attrs.get(key)] on the attribute dictionary of a tag. *)
Fixpoint attrs_get (attrs : list (str * str)) (key : str) : option str :=
  match attrs with
  | [] => None
  | (k, v) :: attrs' => if bool_decide (k = key) then Some v else attrs_get attrs' key
  end.

(** [tag[key]], raising KeyError ([None]) when the attribute is absent. *)
Definition tag_getitem (n : node) (key : str) : option str :=
  match n with
  | Tag _ attrs _ => attrs_get attrs key
  | NavigableString _ => None
  end.

(** [tag.get_text()]: the strings below the tag, concatenated. *)
Fixpoint get_text (n : node) : str :=
  match n with
  | NavigableString s => s
  | Tag _ _ contents =>
      (fix go (cs : list node) : str :=
         match cs with
         | [] => []
         | c :: cs' => get_text c ++ go cs'
         end) contents
  end.

Definition is_li_with_id (name : str) (attrs : list (str * str)) : bool :=
  bool_decide (name = txt "li") && bool_decide (is_Some (attrs_get attrs (txt "id"))).

(** [find_all('li', id=True)] below and including a node, in document
    order. *)
Fixpoint find_all_li_id (n : node) : list node :=
  match n with
  | NavigableString _ => []
  | Tag name attrs contents =>
      (if is_li_with_id name attrs then [n] else [])
      ++ (fix go (cs : list node) : list node :=
            match cs with
            | [] => []
            | c :: cs' => find_all_li_id c ++ go cs'
            end) contents
  end.

Definition soup_find_all_li_id (s : soup) : list node :=
  flat_map find_all_li_id s.

(** The first tag named [body] at or below a node, in document order. *)
Fixpoint find_body (n : node) : option node :=
  match n with
  | NavigableString _ => None
  | Tag name _ contents =>
      if bool_decide (name = txt "body") then Some n
      else (fix go (cs : list node) : option node :=
              match cs with
              | [] => None
              | c :: cs' =>
                  match find_body c with
                  | Some b => Some b
                  | None => go cs'
                  end
              end) contents
  end.

(** [soup.body] *)
Fixpoint soup_body (s : soup) : option node :=
  match s with
  | [] => None
  | n :: s' =>
      match find_body n with
      | Some b => Some b
      | None => soup_body s'
      end
  end.

(** The tree in which the first tag named [body] is [body']: the
    rewriting of the source happens in place, inside that tag. *)
Fixpoint with_body (body' : node) (n : node) : option node :=
  match n with
  | NavigableString _ => None
  | Tag name attrs contents =>
      if bool_decide (name = txt "body") then Some body'
      else match (fix go (cs : list node) : option (list node) :=
                    match cs with
                    | [] => None
                    | c :: cs' =>
                        match with_body body' c with
                        | Some c' => Some (c' :: cs')
                        | None =>
                            match go cs' with
                            | Some r => Some (c :: r)
                            | None => None
                            end
                        end
                    end) contents with
           | Some contents' => Some (Tag name attrs contents')
           | None => None
           end
  end.

Fixpoint soup_with_body (body' : node) (s : soup) : soup :=
  match s with
  | [] => []
  | n :: s' =>
      match with_body body' n with
      | Some n' => n' :: s'
      | None => n :: soup_with_body body' s'
      end
  end.

End Soup.

Import PyStr Re Soup.

(** ** The engine: [process_xhtml_files] *)

(** An entry of [bib_data]: the dictionary [{"id": ..., "filename": ...}]. *)
Record BibEntry := mkBibEntry { id : str; filename : str }.

(** The state the callback [protect_entity] works on: the dictionary
    [entity_map], in insertion order, and the number of identifiers drawn
    from [uuid.uuid4] so far. *)
Record guard_state := mkGuard {
  entity_map : list (str * str);
  uuid_calls : nat
}.

(** What a run does.  The source returns the path of the file it wrote
    [final_content] to, or [None]; the three ways to [None] are kept
    apart here. *)
Inductive outcome :=
| Written (final_content : str) (links_created : nat)
| NoValidEntries   (* "Warning: No valid bibliography entries found." *)
| NoBody           (* [chapter_soup.body] is [None] *)
| Unexpected.      (* an exception reached [except Exception] *)

(** [d[key] = value] on a dictionary kept in insertion order: a key
    already present keeps its place. *)
Fixpoint dict_set (d : list (str * str)) (key value : str) : list (str * str) :=
  match d with
  | [] => [(key, value)]
  | (k, v) :: d' =>
      if bool_decide (k = key) then (k, value) :: d'
      else (k, v) :: dict_set d' key value
  end.

Section Engine.

(** [uuid4_hex n] is [uuid.uuid4().hex] at the call number [n] of the
    run. *)
Variable uuid4_hex : nat -> str.

(** [BeautifulSoup(markup, 'xml')] and [str(soup)]: the parser and the
    serializer of the library are taken as they come, as functions that
    always return. *)
Variable BeautifulSoup : str -> soup.
Variable decode : soup -> str.

(** *** Step 1: the bibliography *)

(** The key of an entry text, [None] where the source goes on to the
    next entry without recording this one. *)
Definition normalized_key_of (item_text : str) : option str :=
  match search citation_pattern_at item_text with
  | Some m =>
      let author_part := group1 item_text m in
      let year := group2 item_text m in
      if bool_decide (strip author_part = []) then None
      else
        match item0 (split_on "," (strip author_part)) ≫= (fun part => item0 (split_ws part)) with
        | Some primary_author_surname =>
            Some (lower primary_author_surname ++ remove_whitespace year)
        | None => None   (* except IndexError: continue *)
        end
  | None => None
  end.

(** The body of the loop over the entries; [None] is the KeyError of
    [item['id']]. *)
Definition index_item (bib_filename : str)
    (bib_data : gmap str (list BibEntry)) (item : node)
    : option (gmap str (list BibEntry)) :=
  bib_id ← tag_getitem item (txt "id");
  let item_text := strip (get_text item) in
  match normalized_key_of item_text with
  | Some normalized_key =>
      let bib_data1 :=
        match bib_data !! normalized_key with
        | None => <[normalized_key := []]> bib_data
        | Some _ => bib_data
        end in
      Some (<[normalized_key :=
               default [] (bib_data1 !! normalized_key)
               ++ [mkBibEntry bib_id bib_filename]]> bib_data1)
  | None => Some bib_data
  end.

Fixpoint index_items (bib_filename : str)
    (bib_data : gmap str (list BibEntry)) (items : list node)
    : option (gmap str (list BibEntry)) :=
  match items with
  | [] => Some bib_data
  | item :: items' =>
      bib_data1 ← index_item bib_filename bib_data item;
      index_items bib_filename bib_data1 items'
  end.

Definition build_bib_data (bib_filename : str) (bib_soup : soup)
    : option (gmap str (list BibEntry)) :=
  index_items bib_filename ∅ (soup_find_all_li_id bib_soup).

(** *** Step 2: the entities of the chapter *)

Definition placeholder_of (hex : str) : str :=
  txt "__ENTITY_" ++ hex ++ txt "__".

Definition protect_entity (entity : str) (st : guard_state) : str * guard_state :=
  let placeholder := placeholder_of (uuid4_hex (uuid_calls st)) in
  (placeholder,
   mkGuard (dict_set (entity_map st) placeholder entity) (S (uuid_calls st))).

(** [entity_pattern.sub(protect_entity, content)] started in the state
    [st]: the protected content and the state left. *)
Definition protect_from (st : guard_state) (content : str) : str * guard_state :=
  sub_scan entity_pattern_len protect_entity 0 content st.

(** The run starts with an empty [entity_map]. *)
Definition protect (chapter_content : str) : str * guard_state :=
  protect_from (mkGuard [] 0) chapter_content.

(** The loop over [entity_map.items()]. *)
Definition restore (entities : list (str * str)) (content : str) : str :=
  fold_left (fun final_content '(placeholder, entity) =>
               replace placeholder entity final_content) entities content.

(** *** Step 2, continued: the citations of a text element *)

Definition lookup_key_of (author_in_text year_in_text : str) : str :=
  lower author_in_text ++ remove_whitespace year_in_text.

Definition new_a_tag (entry : BibEntry) (year_in_text : str) : node :=
  Tag (txt "a")
      [(txt "class", txt "xref");
       (txt "href", filename entry ++ txt "#" ++ id entry)]
      [NavigableString year_in_text].

(** One turn of the loop over the matches: the state is [new_content],
    [last_index] and [links_created]; [None] is the IndexError of
    [bib_data[lookup_key][0]]. *)
Definition rewrite_match (bib_data : gmap str (list BibEntry))
    (original_text : str) (acc : list node * nat * nat) (m : match_obj)
    : option (list node * nat * nat) :=
  let '(new_content, last_index, links_created) := acc in
  let new_content1 :=
    if last_index <? m_start m
    then new_content ++ [NavigableString (slice original_text last_index (m_start m))]
    else new_content in
  let author_in_text := group1 original_text m in
  let year_in_text := group2 original_text m in
  let lookup_key := lookup_key_of author_in_text year_in_text in
  match bib_data !! lookup_key with
  | Some entries =>
      entry ← item0 entries;
      Some (new_content1
              ++ [NavigableString (author_in_text ++ txt " ");
                  new_a_tag entry year_in_text],
            m_end m, S links_created)
  | None =>
      Some (new_content1 ++ [NavigableString (group0 original_text m)],
            m_end m, links_created)
  end.

Fixpoint rewrite_matches (bib_data : gmap str (list BibEntry))
    (original_text : str) (acc : list node * nat * nat)
    (matches : list match_obj) : option (list node * nat * nat) :=
  match matches with
  | [] => Some acc
  | m :: matches' =>
      acc1 ← rewrite_match bib_data original_text acc m;
      rewrite_matches bib_data original_text acc1 matches'
  end.

(** What a text element outside [a], [script] and [style] is replaced
    with, and the new value of [links_created]. *)
Definition rewrite_text (bib_data : gmap str (list BibEntry))
    (original_text : str) (links_created : nat) : option (list node * nat) :=
  match finditer search_pattern_at original_text with
  | [] => Some ([NavigableString original_text], links_created)
  | matches =>
      '(new_content, last_index, links) ←
        rewrite_matches bib_data original_text ([], 0, links_created) matches;
      Some (if last_index <? length original_text
            then new_content
                   ++ [NavigableString
                         (slice original_text last_index (length original_text))]
            else new_content,
            links)
  end.

Definition skipped_parent (parent_name : str) : bool :=
  bool_decide (parent_name ∈ [txt "a"; txt "script"; txt "style"]).

(** The contents of a tag, rewritten one element after the other by
    [rewrite_one], with [links_created] passed along. *)
Definition rewrite_each (rewrite_one : node -> nat -> option (list node * nat))
    : list node -> nat -> option (list node * nat) :=
  fix go (cs : list node) (links : nat) : option (list node * nat) :=
    match cs with
    | [] => Some ([], links)
    | c :: cs' =>
        '(r1, links1) ← rewrite_one c links;
        '(r2, links2) ← go cs' links1;
        Some (r1 ++ r2, links2)
    end.

(** The loop over [body.find_all(string=True)], as a traversal: every
    text element is replaced where it stands, by what [rewrite_text]
    gives for it; [parent_name] is [text_element.parent.name]. *)
Fixpoint rewrite_node (bib_data : gmap str (list BibEntry))
    (parent_name : str) (n : node) (links_created : nat)
    : option (list node * nat) :=
  match n with
  | NavigableString s =>
      if skipped_parent parent_name then Some ([n], links_created)
      else rewrite_text bib_data s links_created
  | Tag name attrs contents =>
      '(contents', links) ←
        rewrite_each (rewrite_node bib_data name) contents links_created;
      Some ([Tag name attrs contents'], links)
  end.

(** The contents of a tag named [parent_name], rewritten. *)
Definition rewrite_contents (bib_data : gmap str (list BibEntry))
    (parent_name : str) : list node -> nat -> option (list node * nat) :=
  rewrite_each (rewrite_node bib_data parent_name).

Definition rewrite_body (bib_data : gmap str (list BibEntry)) (body : node)
    : option (node * nat) :=
  match body with
  | Tag name attrs contents =>
      '(contents', links) ← rewrite_contents bib_data name contents 0;
      Some (Tag name attrs contents', links)
  | NavigableString _ => None
  end.

(** *** The whole run

    [bib_filename] is [os.path.basename(bib_file_path)]; [bib_file] and
    [chapter_content] are what the two files hold. *)
Definition process_xhtml_files (chapter_content : str)
    (bib_filename bib_file : str) : outcome :=
  let bib_soup := BeautifulSoup bib_file in
  match build_bib_data bib_filename bib_soup with
  | None => Unexpected
  | Some bib_data =>
      if bool_decide (bib_data = ∅) then NoValidEntries
      else
        let '(protected_content, st) := protect chapter_content in
        let chapter_soup := BeautifulSoup protected_content in
        match soup_body chapter_soup with
        | None => NoBody
        | Some body =>
            match rewrite_body bib_data body with
            | None => Unexpected
            | Some (body', links_created) =>
                let final_html_with_placeholders :=
                  decode (soup_with_body body' chapter_soup) in
                Written (restore (entity_map st) final_html_with_placeholders)
                        links_created
            end
        end
  end.

End Engine.


(** ** Notions used to state the properties *)

(** Induction on a document tree, with the contents of a tag covered. *)
Section node_induction.
Variable P : node -> Prop.
Hypothesis P_string : forall s, P (NavigableString s).
Hypothesis P_tag : forall name attrs contents,
    Forall P contents -> P (Tag name attrs contents).

Fixpoint node_induction (n : node) : P n :=
  match n with
  | NavigableString s => P_string s
  | Tag name attrs contents =>
      P_tag name attrs contents
        ((fix go (cs : list node) : Forall P cs :=
            match cs with
            | [] => @List.Forall_nil _ P
            | c :: cs' => @List.Forall_cons _ P c cs' (node_induction c) (go cs')
            end) contents)
  end.
End node_induction.

(** The key the indexer computes for an entry. *)
Definition entry_key (item : node) : option str :=
  normalized_key_of (strip (get_text item)).

(** What the entry [item] of the document [bib_filename] is recorded as. *)
Definition entry_of (bib_filename : str) (item : node) : option BibEntry :=
  (fun bib_id => mkBibEntry bib_id bib_filename) <$> tag_getitem item (txt "id").

(** The entries of [items] whose key is [key], in the order of [items]. *)
Definition entries_for (bib_filename key : str) (items : list node) : list BibEntry :=
  omap (fun item =>
          if bool_decide (entry_key item = Some key)
          then entry_of bib_filename item else None) items.

Definition has_id (item : node) : Prop :=
  is_Some (tag_getitem item (txt "id")).

(** A sequence of entries appended to what a key holds already. *)
Definition appended (old : option (list BibEntry)) (new : list BibEntry)
    : option (list BibEntry) :=
  match old, new with
  | None, [] => None
  | _, _ => Some (default [] old ++ new)
  end.

(** No key of a built index holds an empty sequence. *)
Definition nonempty_values (bib_data : gmap str (list BibEntry)) : Prop :=
  forall k, bib_data !! k <> Some [].


(** [p in s] *)
Fixpoint contains (p s : str) : bool :=
  starts_with p s
  || match s with
     | [] => false
     | _ :: s' => contains p s'
     end.

Definition is_hex (c : ascii) : bool := is_digit c || in_range 97 102 c.

(** The shape of [uuid.uuid4().hex]: 32 lowercase hexadecimal digits. *)
Definition is_uuid_hex (h : str) : bool :=
  (length h =? 32) && forallb is_hex h.

(** [d.get(key)] on a dictionary kept in insertion order. *)
Fixpoint dict_get (d : list (str * str)) (key : str) : option str :=
  match d with
  | [] => None
  | (k, v) :: d' => if bool_decide (k = key) then Some v else dict_get d' key
  end.

(** Assignments made one after the other. *)
Definition dict_update (d new : list (str * str)) : list (str * str) :=
  fold_left (fun d '(k, v) => dict_set d k v) new d.

(** How the scan of [protect] reads a text, from the call number [n] of
    [uuid.uuid4] on: a character at which the entity pattern does not
    match is copied; an entity is replaced by the placeholder made at
    that call and recorded with it, and the scan goes on behind it. *)
Inductive scanned (uuid4_hex : nat -> str)
    : nat -> str -> str -> list (str * str) -> Prop :=
| scanned_end n : scanned uuid4_hex n [] [] []
| scanned_copy n c s out new :
    entity_pattern_len (c :: s) = None ->
    scanned uuid4_hex n s out new ->
    scanned uuid4_hex n (c :: s) (c :: out) new
| scanned_entity n entity s out new :
    entity_pattern_len (entity ++ s) = Some (length entity) ->
    scanned uuid4_hex (S n) s out new ->
    scanned uuid4_hex n (entity ++ s)
      (placeholder_of (uuid4_hex n) ++ out)
      ((placeholder_of (uuid4_hex n), entity) :: new).

(** [P] holds of the calls number [n], ..., [n + len - 1]. *)
Definition drawn (P : nat -> Prop) (n len : nat) : Prop :=
  forall k, n <= k < n + len -> P k.


(** The positions of a match object are in order and inside the text,
    and the match is not empty. *)
Definition well_spanned (text : str) (m : match_obj) : Prop :=
  m_start m <= m_g1_end m /\ m_g1_end m <= m_g2_start m
  /\ m_g2_start m <= m_end m /\ m_end m <= length text
  /\ m_start m < m_end m.

(** Matches that follow one another from the position [from] on,
    without overlap. *)
Fixpoint chained (text : str) (from : nat) (ms : list match_obj) : Prop :=
  match ms with
  | [] => True
  | m :: ms' => from <= m_start m /\ well_spanned text m /\ chained text (m_end m) ms'
  end.
(** ** Sample documents *)
Module Sample.

(** [<li id="i">text</li>] *)
Definition li (i text : string) : node :=
  Tag (txt "li") [(txt "id", txt i)] [NavigableString (txt text)].

(** [<html><body><ol> ... </ol></body></html>] around the entries. *)
Definition bibliography (entries : list node) : soup :=
  [Tag (txt "html") [] [Tag (txt "body") [] [Tag (txt "ol") [] entries]]].

(** [<a class="xref" href="href">year</a>] *)
Definition xref (href year : string) : node :=
  Tag (txt "a") [(txt "class", txt "xref"); (txt "href", txt href)]
      [NavigableString (txt year)].

Definition smith1999 : soup := bibliography [li "ref1" "Smith, J. (1999)."].
Definition smith1999a : soup := bibliography [li "ref1" "Smith, J. (1999a)."].

(** Two works of one year under one surname. *)
Definition two_smiths : soup :=
  bibliography [li "ref1" "Smith, J. (1999). Early work.";
                li "ref2" "Smith, A. (1999). Late work."].

(** The second entry starts with its year: it has no author. *)
Definition one_without_author : soup :=
  bibliography [li "ref1" "Smith, J. (1999)."; li "ref2" "2001. Anonymous."].

Definition none_usable : soup :=
  bibliography [li "ref1" "2001. Anonymous."; li "ref2" "No year at all"].

(** [<html><body><p>text</p></body></html>] *)
Definition chapter (text : string) : soup :=
  [Tag (txt "html") [] [Tag (txt "body") [] [Tag (txt "p") [] [NavigableString (txt text)]]]].

(** A citation inside [<a href="#n1"><em> ... </em></a>]. *)
Definition linked_emphasis : node :=
  Tag (txt "body") []
    [Tag (txt "a") [(txt "href", txt "#n1")]
       [Tag (txt "em") [] [NavigableString (txt "Smith 1999")]]].

(** Two identifiers as [uuid.uuid4().hex] gives them. *)
Definition hex_a : str := txt "00000000000040008000000000000000".
Definition hex_b : str := txt "11111111111141118111111111111111".

Definition uuids (n : nat) : str :=
  match n with
  | 0 => hex_a
  | _ => hex_b
  end.

(** A text that holds, behind two entities, the tail of the
    placeholder made for the first of them. *)
Definition text_with_tail : str :=
  txt "&lt;&amp;ENTITY_" ++ hex_a ++ txt "__".

(** A serializer and a parser to run the engine with: the tags are
    written out with their attributes; the parser knows the documents
    it is given with their markup, and nothing else. *)
Fixpoint render (n : node) : str :=
  match n with
  | NavigableString s => s
  | Tag name attrs contents =>
      txt "<" ++ name
      ++ flat_map (fun '(k, v) =>
                     txt " " ++ k ++ txt "=" ++ [ascii_of_nat 34] ++ v
                     ++ [ascii_of_nat 34]) attrs
      ++ txt ">"
      ++ (fix go (cs : list node) : str :=
            match cs with
            | [] => []
            | c :: cs' => render c ++ go cs'
            end) contents
      ++ txt "</" ++ name ++ txt ">"
  end.

Definition decode (s : soup) : str := flat_map render s.

Definition parser (known : list soup) (markup : str) : soup :=
  default [] (head (filter (fun s => bool_decide (decode s = markup)) known)).

End Sample.
(** ** Properties of the bibliography index *)

Lemma find_all_li_id_has_id (n item : node) :
  item ∈ find_all_li_id n -> has_id item.
Proof.
  revert item. induction n as [s|name attrs cs IH] using node_induction;
    intros item; simpl.
  - intros H. inversion H.
  - rewrite elem_of_app. intros [H|H].
    + destruct (is_li_with_id name attrs) eqn:E; [|inversion H].
      apply list_elem_of_singleton in H. subst item.
      unfold is_li_with_id in E. apply andb_true_iff in E as [_ E].
      apply bool_decide_eq_true in E. exact E.
    + induction IH as [|c cs' Hc _ IHcs]; [inversion H|].
      apply elem_of_app in H as [H|H]; [by apply Hc | by apply IHcs].
Qed.

Lemma soup_find_all_li_id_has_id (s : soup) :
  Forall has_id (soup_find_all_li_id s).
Proof.
  apply Forall_forall. intros item H. unfold soup_find_all_li_id in H.
  apply list_elem_of_In, in_flat_map in H as (n & _ & H).
  apply list_elem_of_In in H. by eapply find_all_li_id_has_id.
Qed.

Lemma index_item_lookup (fn : str) (d : gmap str (list BibEntry)) (item : node) :
  has_id item ->
  exists d', index_item fn d item = Some d'
    /\ forall k, d' !! k = appended (d !! k) (entries_for fn k [item]).
Proof.
  intros [i Hi].
  assert (He : entry_of fn item = Some (mkBibEntry i fn))
    by (unfold entry_of; by rewrite Hi).
  unfold index_item, entries_for. rewrite Hi. simpl.
  fold (entry_key item). rewrite He. destruct (entry_key item) as [k0|] eqn:Ek.
  - eexists. split; [reflexivity|]. intros k.
    destruct (decide (k0 = k)) as [->|Hne].
    + rewrite lookup_insert_eq, bool_decide_eq_true_2 by done. simpl.
      destruct (d !! k) as [old|] eqn:Ed; simpl.
      * by rewrite Ed.
      * by rewrite lookup_insert_eq.
    + rewrite lookup_insert_ne by done.
      rewrite bool_decide_eq_false_2 by congruence. simpl.
      destruct (d !! k0) eqn:Ed0; [|rewrite lookup_insert_ne by done];
        destruct (d !! k); simpl; by rewrite ?app_nil_r.
  - exists d. split; [reflexivity|]. intros k.
    rewrite bool_decide_eq_false_2 by congruence. simpl.
    destruct (d !! k); simpl; by rewrite ?app_nil_r.
Qed.

Lemma appended_appended o l1 l2 :
  appended (appended o l1) l2 = appended o (l1 ++ l2).
Proof.
  destruct o as [old|], l1 as [|x l1], l2 as [|y l2]; simpl;
    by rewrite ?app_nil_r, <- ?app_assoc.
Qed.

Lemma entries_for_cons fn k item items :
  entries_for fn k (item :: items) = entries_for fn k [item] ++ entries_for fn k items.
Proof.
  unfold entries_for. simpl.
  by destruct (bool_decide _); [destruct (entry_of fn item)|].
Qed.

(** The loop over the entries never raises, and leaves under every key
    what was there followed by the entries of that key, in document
    order. *)
Lemma index_items_lookup (fn : str) (items : list node) :
  Forall has_id items ->
  forall d, exists d', index_items fn d items = Some d'
    /\ forall k, d' !! k = appended (d !! k) (entries_for fn k items).
Proof.
  induction 1 as [|item items Hid _ IH]; intros d; simpl.
  - exists d. split; [reflexivity|]. intros k.
    by destruct (d !! k); simpl; rewrite ?app_nil_r.
  - destruct (index_item_lookup fn d item Hid) as (d1 & -> & H1). simpl.
    destruct (IH d1) as (d' & -> & H'). exists d'. split; [reflexivity|].
    intros k. by rewrite H', H1, appended_appended, <- entries_for_cons.
Qed.

Lemma build_bib_data_lookup (fn : str) (bib_soup : soup) :
  exists bib_data, build_bib_data fn bib_soup = Some bib_data
    /\ forall k, bib_data !! k
         = appended None (entries_for fn k (soup_find_all_li_id bib_soup)).
Proof.
  destruct (index_items_lookup fn _ (soup_find_all_li_id_has_id bib_soup) ∅)
    as (d & Hd & Hk).
  exists d. split; [exact Hd|]. intros k. by rewrite Hk, lookup_empty.
Qed.

Lemma build_bib_data_nonempty fn bib_soup bib_data :
  build_bib_data fn bib_soup = Some bib_data -> nonempty_values bib_data.
Proof.
  intros H k. destruct (build_bib_data_lookup fn bib_soup) as (d & Hd & Hk).
  rewrite H in Hd. injection Hd as <-. rewrite Hk.
  by destruct (entries_for _ _ _).
Qed.

(** ** Properties of the rewriter *)

Arguments rewrite_match : simpl never.
Arguments rewrite_text : simpl never.

Lemma rewrite_match_total bib text acc m :
  nonempty_values bib -> is_Some (rewrite_match bib text acc m).
Proof.
  intros Hne. destruct acc as [[nc li] l]. unfold rewrite_match.
  destruct (bib !! lookup_key_of _ _) as [[|e es]|] eqn:E; simpl; eauto.
  by apply Hne in E.
Qed.

Lemma rewrite_matches_total bib text ms :
  nonempty_values bib -> forall acc, is_Some (rewrite_matches bib text acc ms).
Proof.
  intros Hne. induction ms as [|m ms IH]; intros acc; simpl; [eauto|].
  destruct (rewrite_match_total bib text acc m Hne) as [acc1 ->]. apply IH.
Qed.

Lemma rewrite_text_total bib text links :
  nonempty_values bib -> is_Some (rewrite_text bib text links).
Proof.
  intros Hne. unfold rewrite_text.
  destruct (finditer search_pattern_at text) as [|m ms]; [eauto|].
  destruct (rewrite_matches_total bib text (m :: ms) Hne ([], 0, links))
    as [[[nc li] l] ->].
  simpl. eauto.
Qed.

Lemma rewrite_each_total (f : node -> nat -> option (list node * nat)) cs :
  Forall (fun c => forall links, is_Some (f c links)) cs ->
  forall links, is_Some (rewrite_each f cs links).
Proof.
  induction 1 as [|c cs Hc _ IH]; intros links; simpl; [eauto|].
  destruct (Hc links) as [[r1 l1] ->]. simpl.
  destruct (IH l1) as [[r2 l2] ->]. simpl. eauto.
Qed.

(** With a built index the traversal never raises. *)
Lemma rewrite_node_total bib n :
  nonempty_values bib ->
  forall parent links, is_Some (rewrite_node bib parent n links).
Proof.
  intros Hne. induction n as [s|name attrs cs IH] using node_induction;
    intros parent links; simpl.
  - destruct (skipped_parent parent); [eauto|]. by apply rewrite_text_total.
  - assert (H : is_Some (rewrite_each (rewrite_node bib name) cs links)).
    { apply rewrite_each_total. eapply Forall_impl; [exact IH|].
      intros c Hc l. apply Hc. }
    destruct H as [[cs' l'] ->]. simpl. eauto.
Qed.

Lemma find_body_is_tag n b :
  find_body n = Some b -> exists name attrs cs, b = Tag name attrs cs.
Proof.
  revert b. induction n as [s|name attrs cs IH] using node_induction;
    intros b; simpl; [done|].
  destruct (bool_decide _); [intros [= <-]; eauto|].
  induction IH as [|c cs' Hc _ IHcs]; [done|].
  destruct (find_body c) as [b'|] eqn:E; [intros [= <-]; by eapply Hc|].
  apply IHcs.
Qed.

Lemma soup_body_is_tag s b :
  soup_body s = Some b -> exists name attrs cs, b = Tag name attrs cs.
Proof.
  induction s as [|n s IH]; simpl; [done|].
  destruct (find_body n) as [b'|] eqn:E; [intros [= <-]; by eapply find_body_is_tag|].
  exact IH.
Qed.

Lemma rewrite_body_total bib s body :
  nonempty_values bib -> soup_body s = Some body ->
  is_Some (rewrite_body bib body).
Proof.
  intros Hne Hb. apply soup_body_is_tag in Hb as (name & attrs & cs & ->).
  destruct (rewrite_node_total bib (Tag name attrs cs) Hne [] 0) as [[r l] H].
  simpl in H. unfold rewrite_body, rewrite_contents.
  destruct (rewrite_each _ cs 0) as [[cs' l']|]; simpl in *; [eauto|done].
Qed.

(** A turn of the loop keeps what was collected and, for a match whose
    key is in the index, adds the link of the first entry of the key. *)
Lemma rewrite_match_extends bib text nc li l m nc' li' l' :
  rewrite_match bib text (nc, li, l) m = Some (nc', li', l') ->
  exists ext, nc' = nc ++ ext
    /\ forall e es,
        bib !! lookup_key_of (group1 text m) (group2 text m) = Some (e :: es) ->
        new_a_tag e (group2 text m) ∈ ext.
Proof.
  unfold rewrite_match.
  destruct (bib !! lookup_key_of _ _) as [[|e0 es0]|] eqn:E; simpl; [done| |].
  - intros [= <- <- <-]. destruct (li <? m_start m).
    + eexists. rewrite <- app_assoc. split; [reflexivity|].
      intros e es [= <- <-]. set_solver.
    + eexists. split; [reflexivity|]. intros e es [= <- <-]. set_solver.
  - intros [= <- <- <-]. destruct (li <? m_start m).
    + eexists. rewrite <- app_assoc. split; [reflexivity|]. done.
    + eexists. split; [reflexivity|]. done.
Qed.

Lemma rewrite_matches_extends bib text ms :
  forall nc li l nc' li' l',
  rewrite_matches bib text (nc, li, l) ms = Some (nc', li', l') ->
  exists ext, nc' = nc ++ ext
    /\ forall m e es, m ∈ ms ->
        bib !! lookup_key_of (group1 text m) (group2 text m) = Some (e :: es) ->
        new_a_tag e (group2 text m) ∈ ext.
Proof.
  induction ms as [|m ms IH]; intros nc li l nc' li' l'; simpl.
  - intros [= <- <- <-]. exists []. rewrite app_nil_r. split; [done|].
    intros m e es Hm. inversion Hm.
  - destruct (rewrite_match bib text (nc, li, l) m) as [[[nc1 li1] l1]|] eqn:E1;
      simpl; [|done].
    intros H. apply rewrite_match_extends in E1 as (ext1 & -> & H1).
    apply IH in H as (ext2 & -> & H2). exists (ext1 ++ ext2).
    rewrite app_assoc. split; [done|].
    intros m' e es Hm' Hk. apply elem_of_cons in Hm' as [->|Hm'].
    + apply elem_of_app. left. eauto.
    + apply elem_of_app. right. eauto.
Qed.

Lemma rewrite_text_links bib text links out links' m e es :
  rewrite_text bib text links = Some (out, links') ->
  m ∈ finditer search_pattern_at text ->
  bib !! lookup_key_of (group1 text m) (group2 text m) = Some (e :: es) ->
  new_a_tag e (group2 text m) ∈ out.
Proof.
  unfold rewrite_text. intros H Hm Hk.
  destruct (finditer search_pattern_at text) as [|m0 ms] eqn:Ef; [inversion Hm|].
  destruct (rewrite_matches bib text ([], 0, links) (m0 :: ms))
    as [[[nc li] l]|] eqn:E; simpl in H; [|done].
  apply rewrite_matches_extends in E as (ext & -> & Hext).
  injection H as <- <-. simpl.
  destruct (li <? length text); [apply elem_of_app; left|]; eauto.
Qed.

(** Below a tag named [a], [script] or [style] every element is
    replaced by exactly one element, and a string by itself. *)
Lemma rewrite_each_skipped bib name cs :
  skipped_parent name = true ->
  forall links r links',
  rewrite_each (rewrite_node bib name) cs links = Some (r, links') ->
  length r = length cs
  /\ forall i s, cs !! i = Some (NavigableString s) ->
        r !! i = Some (NavigableString s).
Proof.
  intros Hskip. induction cs as [|c cs IH]; intros links r links'; simpl.
  - intros [= <- <-]. split; [done|]. intros i s H. inversion H.
  - destruct (rewrite_node bib name c links) as [[r1 l1]|] eqn:E1; simpl; [|done].
    destruct (rewrite_each _ cs l1) as [[r2 l2]|] eqn:E2; simpl; [|done].
    intros [= <- <-]. apply IH in E2 as [Hlen Hstr].
    assert (H1 : exists c', r1 = [c'] /\ forall s, c = NavigableString s -> c' = c).
    { destruct c as [s|n a k]; simpl in E1.
      - rewrite Hskip in E1. injection E1 as <- <-. eauto.
      - destruct (rewrite_each _ k links) as [[k' l']|]; simpl in E1; [|done].
        injection E1 as <- <-. eexists. split; [done|]. intros s. done. }
    destruct H1 as (c' & -> & Hc'). simpl. split; [by rewrite Hlen|].
    intros [|i] s; simpl.
    + intros [= ->]. by rewrite (Hc' s).
    + apply Hstr.
Qed.

Lemma with_body_none n :
  find_body n = None -> forall b, with_body b n = None.
Proof.
  induction n as [s|name attrs cs IH] using node_induction;
    intros E b; simpl in *; [done|].
  destruct (bool_decide _); [done|].
  match goal with
  | |- match ?g with _ => _ end = _ => assert (Hg : g = None); [|by rewrite Hg]
  end.
  revert E. induction IH as [|c cs' Hc _ IHcs]; [done|].
  destruct (find_body c) eqn:Ec; [done|]. intros E.
  by rewrite (Hc eq_refl b), (IHcs E).
Qed.

(** Putting the body found back in its place changes nothing: the
    search for the body and its replacement walk the tree alike. *)
Lemma with_body_same n b : find_body n = Some b -> with_body b n = Some n.
Proof.
  induction n as [s|name attrs cs IH] using node_induction; simpl; [done|].
  destruct (bool_decide _); [by intros [= <-]|].
  intros H.
  match goal with
  | |- match ?g with _ => _ end = _ => assert (Hg : g = Some cs); [|by rewrite Hg]
  end.
  revert H. induction IH as [|c cs' Hc _ IHcs]; [done|].
  destruct (find_body c) as [b'|] eqn:Ec.
  - intros [= <-]. by rewrite (Hc eq_refl).
  - intros H. by rewrite (with_body_none _ Ec b), (IHcs H).
Qed.

Lemma soup_with_body_same s b : soup_body s = Some b -> soup_with_body b s = s.
Proof.
  induction s as [|n s IH]; simpl; [done|].
  destruct (find_body n) as [b'|] eqn:E.
  - intros [= <-]. by rewrite (with_body_same _ _ E).
  - intros H. by rewrite (with_body_none _ E b), (IH H).
Qed.

(** ** Occurrences of a string in a text, and [str.replace] *)

Lemma starts_with_spec (p s : str) :
  starts_with p s = true <-> exists b, s = p ++ b.
Proof.
  revert s. induction p as [|a p IH]; intros s; simpl.
  - split; [eauto|done].
  - destruct s as [|c s].
    + split; [done|]. by intros [b ?].
    + rewrite andb_true_iff, IH. split.
      * intros [Hac [b ->]]. apply Ascii.eqb_eq in Hac as ->. eauto.
      * intros [b [= -> ->]]. split; [apply Ascii.eqb_refl|eauto].
Qed.

Lemma starts_with_app (p b : str) : starts_with p (p ++ b) = true.
Proof. apply starts_with_spec. eauto. Qed.

Lemma contains_spec (p s : str) :
  contains p s = true <-> exists a b, s = a ++ p ++ b.
Proof.
  induction s as [|c s IH]; simpl.
  - rewrite orb_false_r, starts_with_spec. split.
    + intros [b Hb]. by exists [], b.
    + intros (a & b & H). destruct a; [by exists b|done].
  - rewrite orb_true_iff, starts_with_spec, IH. split.
    + intros [[b Hb]|(a & b & ->)]; [by exists [], b|by exists (c :: a), b].
    + intros (a & b & H). destruct a as [|c' a]; [left; by exists b|].
      right. injection H as -> ->. eauto.
Qed.

Lemma contains_false_drop (p s : str) (i : nat) :
  contains p s = false -> starts_with p (drop i s) = false.
Proof.
  intros H. destruct (starts_with p (drop i s)) eqn:E; [|done].
  apply starts_with_spec in E as [b Hb].
  assert (contains p s = true); [|congruence].
  apply contains_spec. exists (take i s), b. by rewrite <- Hb, take_drop.
Qed.

Lemma contains_app_l (p u v : str) :
  contains p u = true -> contains p (u ++ v) = true.
Proof.
  rewrite !contains_spec. intros (a & b & ->). exists a, (b ++ v).
  by rewrite <- !app_assoc.
Qed.

Lemma contains_app_r (p u v : str) :
  contains p v = true -> contains p (u ++ v) = true.
Proof.
  rewrite !contains_spec. intros (a & b & ->). exists (u ++ a), b.
  by rewrite <- !app_assoc.
Qed.

Lemma contains_same_length (p s : str) :
  length p = length s -> contains p s = true -> p = s.
Proof.
  intros Hlen. rewrite contains_spec. intros (a & b & ->).
  rewrite !length_app in Hlen.
  destruct a; [|simpl in Hlen; lia]. destruct b; [|simpl in Hlen; lia].
  by rewrite app_nil_r.
Qed.

(** Characters still covered by the last occurrence are passed over. *)
Lemma replace_scan_skip (old new : str) (s : str) (k : nat) :
  replace_scan old new k s = replace_scan old new 0 (drop k s).
Proof.
  revert k. induction s as [|c s IH]; intros k.
  - by destruct k.
  - destruct k as [|k]; [done|]. simpl. apply IH.
Qed.

Lemma replace_scan_found (old new b : str) :
  old <> [] ->
  replace_scan old new 0 (old ++ b) = new ++ replace_scan old new 0 b.
Proof.
  intros Hne. destruct old as [|a old]; [done|].
  change ((a :: old) ++ b) with (a :: (old ++ b)).
  cbn [replace_scan].
  change (a :: (old ++ b)) with ((a :: old) ++ b).
  rewrite starts_with_app, replace_scan_skip. f_equal. f_equal.
  simpl. rewrite Nat.sub_0_r. by rewrite drop_app_length.
Qed.

(** Where no occurrence starts, the text is copied. *)
Lemma replace_scan_copy (old new a rest : str) :
  (forall i, i < length a -> starts_with old (drop i (a ++ rest)) = false) ->
  replace_scan old new 0 (a ++ rest) = a ++ replace_scan old new 0 rest.
Proof.
  induction a as [|c a IH]; intros H; [done|].
  assert (H0 : starts_with old ((c :: a) ++ rest) = false)
    by (apply (H 0); simpl; lia).
  change ((c :: a) ++ rest) with (c :: (a ++ rest)) in *.
  cbn [replace_scan]. rewrite H0. simpl. f_equal. apply IH.
  intros i Hi. apply (H (S i)). simpl. lia.
Qed.

Lemma replace_scan_absent (old new s : str) :
  contains old s = false -> replace_scan old new 0 s = s.
Proof.
  intros H. rewrite <- (app_nil_r s) at 1. rewrite replace_scan_copy.
  - simpl. by rewrite app_nil_r.
  - intros i _. rewrite app_nil_r. by apply contains_false_drop.
Qed.

(** A single occurrence is replaced where it stands. *)
Lemma replace_once (old new a b : str) :
  old <> [] ->
  (forall i, i < length a -> starts_with old (drop i (a ++ old ++ b)) = false) ->
  contains old b = false ->
  replace old new (a ++ old ++ b) = a ++ new ++ b.
Proof.
  intros Hne Ha Hb. unfold replace. destruct old as [|o l]; [done|].
  rewrite replace_scan_copy by done.
  rewrite replace_scan_found by done.
  by rewrite replace_scan_absent.
Qed.

(** An occurrence of [h], whose characters are all in a class, does not
    overlap a stretch [w] of characters outside the class. *)
Lemma occurrence_clear_of (P : ascii -> bool) (h w a b u v : str) :
  0 < length h -> 0 < length w ->
  forallb P h = true -> forallb (fun c => negb (P c)) w = true ->
  a ++ h ++ b = u ++ w ++ v ->
  length a + length h <= length u \/ length u + length w <= length a.
Proof.
  intros Hpos Hposw Hh Hw Heq.
  destruct (decide (length a + length h <= length u)) as [|H1]; [by left|].
  destruct (decide (length u + length w <= length a)) as [|H2]; [by right|].
  exfalso.
  set (q := Nat.max (length a) (length u)).
  assert (Hq1 : length a <= q < length a + length h) by (unfold q; lia).
  assert (Hq2 : length u <= q < length u + length w) by (unfold q; lia).
  assert (L1 : (a ++ h ++ b) !! q = h !! (q - length a)).
  { rewrite lookup_app_r by lia. rewrite lookup_app_l by lia. done. }
  assert (L2 : (u ++ w ++ v) !! q = w !! (q - length u)).
  { rewrite lookup_app_r by lia. rewrite lookup_app_l by lia. done. }
  rewrite Heq, L2 in L1.
  destruct (lookup_lt_is_Some_2 h (q - length a)) as [c Hc]; [lia|].
  rewrite Hc in L1.
  rewrite forallb_forall in Hh, Hw.
  assert (P c = true) by (apply Hh, list_elem_of_In, list_elem_of_lookup; eauto).
  assert (negb (P c) = true) by (apply Hw, list_elem_of_In, list_elem_of_lookup; eauto).
  destruct (P c); done.
Qed.

Lemma occurrence_left (h a b u rest : str) :
  a ++ h ++ b = u ++ rest -> length a + length h <= length u ->
  exists b', u = a ++ h ++ b'.
Proof.
  intros Heq Hle. apply (f_equal (take (length u))) in Heq.
  rewrite take_app_length, app_assoc in Heq.
  assert (Hlen : length (a ++ h) <= length u) by (rewrite length_app; lia).
  rewrite (take_app_ge _ _ _ Hlen) in Heq.
  exists (take (length u - length (a ++ h)) b). by rewrite app_assoc.
Qed.

Lemma occurrence_right (h a b u rest : str) :
  a ++ h ++ b = u ++ rest -> length u <= length a ->
  exists a', rest = a' ++ h ++ b.
Proof.
  intros Heq Hle. apply (f_equal (drop (length u))) in Heq.
  rewrite drop_app_length in Heq. rewrite drop_app_le in Heq by lia.
  eauto.
Qed.

Lemma contains_clear_of (P : ascii -> bool) (h w u v : str) :
  0 < length h -> 0 < length w ->
  forallb P h = true -> forallb (fun c => negb (P c)) w = true ->
  contains h (u ++ w ++ v) = true ->
  contains h u = true \/ contains h v = true.
Proof.
  intros Hpos Hposw Hh Hw. rewrite !contains_spec. intros (a & b & Heq).
  symmetry in Heq.
  destruct (occurrence_clear_of P h w a b u v Hpos Hposw Hh Hw Heq) as [H|H].
  - left. destruct (occurrence_left h a b u _ Heq H) as [b' ->]. eauto.
  - right. rewrite (app_assoc u w v) in Heq.
    destruct (occurrence_right h a b (u ++ w) v Heq) as [a' ->]; [|eauto].
    rewrite length_app. lia.
Qed.

(** ** The entity pattern and its scan *)

Lemma greedy_Some {A} (lo hi : nat) (k : nat -> option A) (r : A) :
  greedy lo hi k = Some r -> exists n, lo <= n <= hi /\ k n = Some r.
Proof.
  induction hi as [|hi IH]; simpl.
  - destruct (0 <? lo) eqn:E; [done|]. apply Nat.ltb_ge in E.
    destruct (k 0) eqn:Ek; [|done]. intros [= ->]. exists 0. split; [lia|done].
  - destruct (S hi <? lo) eqn:E; [done|]. apply Nat.ltb_ge in E.
    destruct (k (S hi)) eqn:Ek.
    + intros [= ->]. exists (S hi). split; [lia|done].
    + intros H. apply IH in H as (n & Hn & Hk). exists n. split; [lia|done].
Qed.

Lemma optional_Some {A} (P : ascii -> bool) (text : str) (j : nat)
    (k : nat -> option A) (r : A) :
  optional P text j k = Some r ->
  k j = Some r \/ (class_at P text j = true /\ k (S j) = Some r).
Proof.
  unfold optional. intros H. apply greedy_Some in H as (n & Hn & Hk).
  destruct (class_at P text j).
  - destruct n as [|[|n]]; [left|right|lia].
    + by rewrite Nat.add_0_r in Hk.
    + by rewrite Nat.add_1_r in Hk.
  - left. assert (n = 0) as -> by lia. by rewrite Nat.add_0_r in Hk.
Qed.

Lemma run_length_take (P : ascii -> bool) (s : str) (n : nat) :
  n <= run_length P s ->
  length (take n s) = n /\ forallb P (take n s) = true.
Proof.
  revert n. induction s as [|c s IH]; intros n; simpl.
  - intros H. assert (n = 0) as -> by lia. done.
  - destruct n as [|n]; [done|]. destruct (P c) eqn:Ec; [|lia].
    intros H. destruct (IH n) as [H1 H2]; [lia|]. simpl.
    by rewrite H1, Ec, H2.
Qed.

Lemma class_at_Some (P : ascii -> bool) (s : str) (i : nat) :
  class_at P s i = true -> exists c, s !! i = Some c /\ P c = true.
Proof. unfold class_at. destruct (s !! i); [eauto|done]. Qed.

Lemma lookup_split (s : str) (i : nat) (c : ascii) :
  s !! i = Some c -> s = take i s ++ c :: drop (S i) s.
Proof. intros H. by rewrite <- (take_drop_middle s i c H) at 1. Qed.

(** What the entity pattern matches: an ampersand, possibly a hash, one
    or more word characters, and a semicolon. *)
Lemma entity_pattern_len_shape (s : str) (n : nat) :
  entity_pattern_len s = Some n ->
  exists hash w rest,
    s = "&"%char :: hash ++ w ++ ";"%char :: rest
    /\ n = length ("&"%char :: hash ++ w ++ [";"%char])
    /\ (hash = [] \/ hash = ["#"%char])
    /\ w <> [] /\ forallb is_word w = true.
Proof.
  unfold entity_pattern_len.
  destruct (class_at (Ascii.eqb "&") s 0) eqn:Eamp; [|done].
  apply class_at_Some in Eamp as (c0 & H0 & Hc0). apply Ascii.eqb_eq in Hc0 as <-.
  destruct s as [|c s]; [done|]. injection H0 as ->.
  intros H.
  assert (Hw : forall i, i <= 2 ->
    greedy 1 (class_run is_word ("&"%char :: s) (S i))
      (fun n0 => if class_at (Ascii.eqb ";") ("&"%char :: s) (S i + n0)
                 then Some (S i + n0 + 1) else None) = Some n ->
    exists w rest, drop i s = w ++ ";"%char :: rest
      /\ n = S i + length w + 1 /\ w <> [] /\ forallb is_word w = true).
  { intros i _ Hg. apply greedy_Some in Hg as (m & Hm & Hk).
    destruct (class_at _ _ (S i + m)) eqn:Esemi; [|done].
    injection Hk as <-.
    apply class_at_Some in Esemi as (c1 & H1 & Hc1).
    apply Ascii.eqb_eq in Hc1 as <-. simpl in H1.
    unfold class_run in Hm. simpl in Hm.
    destruct (run_length_take is_word (drop i s) m) as [Hl Hf]; [lia|].
    exists (take m (drop i s)), (drop (S m) (drop i s)).
    rewrite <- lookup_drop in H1. split; [by apply lookup_split|].
    rewrite Hl. split; [lia|]. split; [|done].
    intros E. rewrite E in Hl. simpl in Hl. lia. }
  apply optional_Some in H as [H|[Hhash H]].
  - destruct (Hw 0) as (w & rest & Hs & Hn & Hne & Hf); [lia|exact H|].
    rewrite drop_0 in Hs. exists [], w, rest. subst s. simpl.
    rewrite length_app. simpl. split; [done|]. split; [lia|]. eauto.
  - destruct (Hw 1) as (w & rest & Hs & Hn & Hne & Hf); [lia|exact H|].
    apply class_at_Some in Hhash as (c1 & H1 & Hc1).
    apply Ascii.eqb_eq in Hc1 as <-. simpl in H1.
    destruct s as [|c s]; [done|]. injection H1 as ->. simpl in Hs.
    rewrite drop_0 in Hs. exists ["#"%char], w, rest. subst s. simpl.
    rewrite length_app. simpl. split; [done|]. split; [lia|]. eauto.
Qed.

Lemma entity_pattern_len_bounds (s : str) (n : nat) :
  entity_pattern_len s = Some n -> 0 < n <= length s.
Proof.
  intros H. apply entity_pattern_len_shape in H
    as (hash & w & rest & -> & -> & _ & _ & _).
  simpl. rewrite !length_app. simpl. lia.
Qed.

Lemma greedy_first {A} (lo hi : nat) (k : nat -> option A) (r : A) :
  lo <= hi -> k hi = Some r -> greedy lo hi k = Some r.
Proof.
  intros Hle Hk. destruct hi as [|hi]; simpl.
  - assert (lo = 0) as -> by lia. simpl. by rewrite Hk.
  - destruct (S hi <? lo) eqn:E; [apply Nat.ltb_lt in E; lia|]. by rewrite Hk.
Qed.

Lemma run_length_app_stop (P : ascii -> bool) (w : str) (c : ascii) (rest : str) :
  forallb P w = true -> P c = false ->
  run_length P (w ++ c :: rest) = length w.
Proof.
  intros Hw Hc. induction w as [|a w IH]; simpl in *.
  - by rewrite Hc.
  - apply andb_true_iff in Hw as [-> Hw]. by rewrite IH.
Qed.

Lemma optional_skip {A} (P : ascii -> bool) (text : str) (j : nat)
    (k : nat -> option A) :
  class_at P text j = false -> optional P text j k = k j.
Proof.
  intros H. unfold optional. rewrite H. simpl. rewrite Nat.add_0_r.
  by destruct (k j).
Qed.

Lemma optional_take {A} (P : ascii -> bool) (text : str) (j : nat)
    (k : nat -> option A) (r : A) :
  class_at P text j = true -> k (S j) = Some r -> optional P text j k = Some r.
Proof.
  intros H Hk. unfold optional. rewrite H.
  apply greedy_first; [lia|]. by rewrite Nat.add_1_r.
Qed.

(** Every text of that shape is matched, up to its semicolon. *)
Lemma entity_pattern_len_complete (hash w rest : str) :
  hash = [] \/ hash = ["#"%char] -> w <> [] -> forallb is_word w = true ->
  entity_pattern_len ("&"%char :: hash ++ w ++ ";"%char :: rest)
    = Some (length ("&"%char :: hash ++ w ++ [";"%char])).
Proof.
  intros Hhash Hne Hw.
  assert (Hrun : run_length is_word (w ++ ";"%char :: rest) = length w)
    by (by apply run_length_app_stop).
  assert (Hlen : 1 <= length w) by (destruct w; [done|simpl; lia]).
  assert (Hsemi : (w ++ ";"%char :: rest) !! length w = Some ";"%char)
    by apply list_lookup_middle, eq_refl.
  unfold entity_pattern_len.
  change (class_at (Ascii.eqb "&") ("&"%char :: hash ++ w ++ ";"%char :: rest) 0)
    with true. cbv iota.
  destruct Hhash as [->| ->].
  - rewrite optional_skip.
    + apply greedy_first.
      * unfold class_run. change (1 <= run_length is_word (w ++ ";"%char :: rest)).
        lia.
      * unfold class_run.
        change (drop 1 ("&"%char :: [] ++ w ++ ";"%char :: rest))
          with (w ++ ";"%char :: rest).
        rewrite Hrun. unfold class_at.
        change (("&"%char :: [] ++ w ++ ";"%char :: rest) !! (1 + length w))
          with ((w ++ ";"%char :: rest) !! length w).
        rewrite Hsemi. simpl. rewrite length_app. simpl. by rewrite ?Nat.add_1_r.
    + destruct w as [|c w]; [done|]. simpl in Hw.
      apply andb_true_iff in Hw as [Hc _].
      change (Ascii.eqb "#" c = false).
      destruct (Ascii.eqb_spec "#"%char c) as [<-|]; [by vm_compute in Hc|done].
  - apply optional_take; [done|].
    apply greedy_first.
    + unfold class_run. change (1 <= run_length is_word (w ++ ";"%char :: rest)).
      lia.
    + unfold class_run.
      change (drop 2 ("&"%char :: ["#"%char] ++ w ++ ";"%char :: rest))
        with (w ++ ";"%char :: rest).
      rewrite Hrun. unfold class_at.
      change (("&"%char :: ["#"%char] ++ w ++ ";"%char :: rest) !! (2 + length w))
        with ((w ++ ";"%char :: rest) !! length w).
      rewrite Hsemi. simpl. rewrite length_app. simpl. by rewrite ?Nat.add_1_r.
Qed.

Section sub_scan_equations.
Context {St : Type}.
Variable len_at : str -> option nat.
Variable repl : str -> St -> str * St.

Lemma sub_scan_skip (s : str) (k : nat) (st : St) :
  sub_scan len_at repl k s st = sub_scan len_at repl 0 (drop k s) st.
Proof.
  revert k. induction s as [|c s IH]; intros k.
  - by destruct k.
  - destruct k as [|k]; [done|]. simpl. apply IH.
Qed.

(** At a match the callback is called and the scan goes on behind the
    match. *)
Lemma sub_scan_match (s : str) (n : nat) (st : St) :
  len_at s = Some n -> 0 < n <= length s ->
  sub_scan len_at repl 0 s st =
    let '(r, st1) := repl (take n s) st in
    let '(out, st2) := sub_scan len_at repl 0 (drop n s) st1 in
    (r ++ out, st2).
Proof.
  intros Hlen Hn. destruct s as [|c s]; [simpl in Hn; lia|].
  cbn [sub_scan]. rewrite Hlen.
  destruct (repl (take n (c :: s)) st) as [r st1].
  rewrite sub_scan_skip.
  destruct n as [|n]; [lia|]. simpl. by rewrite Nat.sub_0_r.
Qed.

Lemma sub_scan_no_match (c : ascii) (s : str) (st : St) :
  len_at (c :: s) = None ->
  sub_scan len_at repl 0 (c :: s) st =
    let '(out, st1) := sub_scan len_at repl 0 s st in (c :: out, st1).
Proof. intros Hlen. cbn [sub_scan]. by rewrite Hlen. Qed.
End sub_scan_equations.

(** ** The entity guard *)

Section Guard.
Variable uuid4_hex : nat -> str.

Local Abbreviation scanned := (scanned uuid4_hex).
Local Abbreviation protect_from := (protect_from uuid4_hex).
Local Abbreviation protect := (protect uuid4_hex).

(** The scan of [protect] never fails; its state ends with the
    entities recorded one after the other. *)
Lemma protect_from_scanned (s : str) :
  forall m0 n0, exists out new,
    protect_from (mkGuard m0 n0) s
      = (out, mkGuard (dict_update m0 new) (n0 + length new))
    /\ scanned n0 s out new.
Proof.
  remember (length s) as len eqn:Hlen. revert s Hlen.
  induction len as [len IH] using lt_wf_ind. intros s Hlen m0 n0.
  destruct s as [|c s].
  - exists [], []. split; [|constructor]. unfold protect_from. simpl.
    by rewrite Nat.add_0_r.
  - unfold protect_from in *.
    destruct (entity_pattern_len (c :: s)) as [n|] eqn:E.
    + pose proof (entity_pattern_len_bounds _ _ E) as Hn.
      rewrite (sub_scan_match _ _ _ n _ E Hn). unfold protect_entity at 1.
      cbn [entity_map uuid_calls].
      destruct (IH (length (drop n (c :: s))))
        with (s := drop n (c :: s))
             (m0 := dict_set m0 (placeholder_of (uuid4_hex n0)) (take n (c :: s)))
             (n0 := S n0)
        as (out & new & -> & Hsc); [rewrite length_drop; lia|done|].
      exists (placeholder_of (uuid4_hex n0) ++ out),
             ((placeholder_of (uuid4_hex n0), take n (c :: s)) :: new).
      split.
      * simpl. do 3 f_equal. lia.
      * rewrite <- (take_drop n (c :: s)) at 1. constructor; [|done].
        rewrite take_drop, length_take. by rewrite Nat.min_l by lia.
    + rewrite (sub_scan_no_match _ _ _ _ _ E).
      destruct (IH (length s)) with (s := s) (m0 := m0) (n0 := n0)
        as (out & new & -> & Hsc); [subst len; simpl; lia|done|].
      exists (c :: out), new. split; [done|]. by constructor.
Qed.

Lemma scanned_keys n s out new :
  scanned n s out new ->
  new.*1 = map (fun k => placeholder_of (uuid4_hex k)) (seq n (length new)).
Proof. induction 1; simpl; [done|done|]. by f_equal. Qed.

Lemma placeholder_of_inj (h h' : str) :
  placeholder_of h = placeholder_of h' -> h = h'.
Proof.
  unfold placeholder_of. intros H. apply app_inv_head in H.
  by apply app_inv_tail in H.
Qed.

Lemma is_uuid_hex_spec (h : str) :
  is_uuid_hex h = true -> length h = 32 /\ forallb is_hex h = true.
Proof.
  unfold is_uuid_hex. rewrite andb_true_iff, Nat.eqb_eq. done.
Qed.

Lemma contains_trans (p q s : str) :
  contains p q = true -> contains q s = true -> contains p s = true.
Proof.
  rewrite !contains_spec. intros (a & b & ->) (a' & b' & ->).
  exists (a' ++ a), (b ++ b'). by rewrite <- !app_assoc.
Qed.

Lemma placeholder_contains_hex (h : str) :
  contains h (placeholder_of h) = true.
Proof. apply contains_spec. by exists (txt "__ENTITY_"), (txt "__"). Qed.

(** An identifier found in the protected text was in the original
    text or is one of those drawn by the scan. *)
Lemma scanned_contains_hex n s out new :
  scanned n s out new ->
  forall X h,
  is_uuid_hex h = true ->
  drawn (fun k => is_uuid_hex (uuid4_hex k) = true) n (length new) ->
  contains h (X ++ out) = true ->
  contains h (X ++ s) = true
  \/ exists k, n <= k < n + length new /\ h = uuid4_hex k.
Proof.
  induction 1 as [n|n c s out new Hnone Hsc IH|n entity s out new Hlen Hsc IH];
    intros X h Hh Hdrawn Hin.
  - by left.
  - rewrite (cons_middle c X out), app_assoc in Hin.
    rewrite (cons_middle c X s), app_assoc. by apply IH.
  - apply is_uuid_hex_spec in Hh as Hh'. destruct Hh' as [Hh32 Hhex].
    assert (Hn : is_uuid_hex (uuid4_hex n) = true)
      by (apply Hdrawn; simpl; lia).
    apply is_uuid_hex_spec in Hn as [Hn32 _].
    unfold placeholder_of in Hin. rewrite <- !app_assoc in Hin.
    destruct (contains_clear_of is_hex h (txt "__ENTITY_") X _
                ltac:(lia) ltac:(cbv; lia) Hhex eq_refl Hin) as [HX|Hin1].
    { left. by apply contains_app_l. }
    destruct (contains_clear_of is_hex h (txt "__") (uuid4_hex n) out
                ltac:(lia) ltac:(cbv; lia) Hhex eq_refl Hin1) as [Hhn|Hout].
    { right. exists n. split; [simpl; lia|].
      apply contains_same_length; [lia|done]. }
    destruct (IH [] h Hh) as [Hs|(k & Hk & ->)].
    + intros k Hk. apply Hdrawn. simpl. lia.
    + exact Hout.
    + left. by do 2 apply contains_app_r.
    + right. exists k. split; [simpl; lia|done].
Qed.

(** The placeholders are put back one after the other, each where it
    was put in. *)
Lemma scanned_restore n s out new :
  scanned n s out new ->
  forall X,
  drawn (fun k => is_uuid_hex (uuid4_hex k) = true) n (length new) ->
  drawn (fun k => forall j, n <= j < k -> uuid4_hex j <> uuid4_hex k) n (length new) ->
  drawn (fun k => contains (uuid4_hex k) (X ++ s) = false) n (length new) ->
  restore new (X ++ out) = X ++ s.
Proof.
  induction 1 as [n|n c s out new Hnone Hsc IH|n entity s out new Hlen Hsc IH];
    intros X Hhex Hinj Hfresh.
  - done.
  - rewrite (cons_middle c X out), app_assoc.
    rewrite (cons_middle c X s), app_assoc. apply IH; [done|done|].
    intros k Hk. rewrite <- app_assoc. by apply Hfresh.
  - assert (Hn : is_uuid_hex (uuid4_hex n) = true)
      by (apply Hhex; simpl; lia).
    apply is_uuid_hex_spec in Hn as Hn'. destruct Hn' as [Hn32 Hnhex].
    assert (Hfn : contains (uuid4_hex n) (X ++ entity ++ s) = false)
      by (apply Hfresh; simpl; lia).
    cbn [restore fold_left]. fold (restore new).
    rewrite replace_once.
    + rewrite app_assoc, (app_assoc X entity s). apply IH.
      * intros k Hk. apply Hhex. simpl. lia.
      * intros k Hk j Hj. apply Hinj; simpl; lia.
      * intros k Hk. rewrite <- app_assoc. apply Hfresh. simpl. lia.
    + done.
    + intros i Hi.
      destruct (starts_with _ (drop i _)) eqn:E; [exfalso|done].
      apply starts_with_spec in E as [b Hb].
      pose proof (take_drop i (X ++ placeholder_of (uuid4_hex n) ++ out)) as Hsplit.
      rewrite Hb in Hsplit. unfold placeholder_of in Hsplit.
      set (a := take i (X ++ (txt "__ENTITY_" ++ uuid4_hex n ++ txt "__") ++ out)) in *.
      assert (Ha : length a = i).
      { unfold a. rewrite length_take, length_app. lia. }
      assert (Heq : (a ++ txt "__ENTITY_") ++ uuid4_hex n ++ (txt "__" ++ b)
                    = X ++ txt "__ENTITY_" ++ (uuid4_hex n ++ txt "__" ++ out))
        by (rewrite <- !app_assoc in Hsplit; rewrite <- !app_assoc; exact Hsplit).
      assert (Hpos : 0 < length (uuid4_hex n)) by lia.
      assert (Hsep : 0 < length (txt "__ENTITY_")) by (cbv; lia).
      destruct (occurrence_clear_of is_hex _ _ _ _ _ _
                  Hpos Hsep Hnhex eq_refl Heq) as [Hle|Hle].
      * destruct (occurrence_left _ _ _ _ _ Heq Hle) as [b' HX].
        assert (contains (uuid4_hex n) (X ++ entity ++ s) = true); [|congruence].
        apply contains_app_l, contains_spec. eauto.
      * rewrite length_app in Hle. lia.
    + destruct (contains _ out) eqn:E; [exfalso|done].
      pose proof (contains_trans _ _ _ (placeholder_contains_hex (uuid4_hex n)) E)
        as Hin.
      destruct (scanned_contains_hex _ _ _ _ Hsc [] _ Hn) as [Hs|(k & Hk & Hnk)].
      * intros k Hk. apply Hhex. simpl. lia.
      * exact Hin.
      * assert (contains (uuid4_hex n) (X ++ entity ++ s) = true); [|congruence].
        by do 2 apply contains_app_r.
      * eapply (Hinj k); [simpl; lia| |exact Hnk]. lia.
Qed.

Lemma dict_set_new (d : list (str * str)) (k v : str) :
  k ∉ d.*1 -> dict_set d k v = d ++ [(k, v)].
Proof.
  induction d as [|[k' v'] d IH]; simpl; [done|].
  rewrite not_elem_of_cons. intros [Hne Hd].
  rewrite bool_decide_eq_false_2 by done. by rewrite IH.
Qed.

Lemma dict_update_new (new d : list (str * str)) :
  NoDup new.*1 -> (forall k, k ∈ new.*1 -> k ∉ d.*1) ->
  dict_update d new = d ++ new.
Proof.
  revert d. induction new as [|[k v] new IH]; intros d Hnd Hd; simpl.
  - by rewrite app_nil_r.
  - apply NoDup_cons in Hnd as [Hk Hnd].
    unfold dict_update in *. simpl. rewrite dict_set_new by (apply Hd; simpl; apply elem_of_cons; by left).
    rewrite IH; [by rewrite <- app_assoc|done|].
    intros k' Hk'. rewrite fmap_app, not_elem_of_app. split.
    + apply Hd. simpl. apply elem_of_cons. by right.
    + simpl. intros Hin. apply list_elem_of_singleton in Hin. by subst.
Qed.

Lemma drawn_keys_NoDup n len :
  drawn (fun k => forall j, n <= j < k -> uuid4_hex j <> uuid4_hex k) n len ->
  NoDup (map (fun k => placeholder_of (uuid4_hex k)) (seq n len)).
Proof.
  revert n. induction len as [|len IH]; intros n Hinj; simpl; [constructor|].
  apply NoDup_cons. split.
  - intros Hin. apply list_elem_of_fmap in Hin as (k & Hk & Hin).
    apply placeholder_of_inj in Hk. apply elem_of_seq in Hin.
    eapply (Hinj k); [lia| |exact Hk]. lia.
  - apply IH. intros k Hk j Hj. apply Hinj; lia.
Qed.

Lemma protect_from_copy (st : guard_state) (pre rest : str) :
  (forall i, i < length pre -> entity_pattern_len (drop i (pre ++ rest)) = None) ->
  protect_from st (pre ++ rest)
    = let '(out, st') := protect_from st rest in (pre ++ out, st').
Proof.
  unfold protect_from. induction pre as [|c pre IH]; intros H.
  - simpl. by destruct (sub_scan _ _ 0 rest st).
  - assert (H0 : entity_pattern_len ((c :: pre) ++ rest) = None)
      by (apply (H 0); simpl; lia).
    change ((c :: pre) ++ rest) with (c :: (pre ++ rest)) in *.
    rewrite (sub_scan_no_match _ _ _ _ _ H0), IH.
    + by destruct (sub_scan _ _ 0 rest st).
    + intros i Hi. apply (H (S i)). simpl. lia.
Qed.

Lemma protect_from_entity (st : guard_state) (entity post : str) :
  entity_pattern_len (entity ++ post) = Some (length entity) ->
  protect_from st (entity ++ post)
    = let placeholder := placeholder_of (uuid4_hex (uuid_calls st)) in
      let '(out, st') :=
        protect_from (mkGuard (dict_set (entity_map st) placeholder entity)
                              (S (uuid_calls st))) post in
      (placeholder ++ out, st').
Proof.
  intros H. unfold protect_from.
  rewrite (sub_scan_match _ _ _ _ _ H (entity_pattern_len_bounds _ _ H)).
  by rewrite take_app_length, drop_app_length.
Qed.

Lemma protect_from_absent (st : guard_state) (s : str) :
  (forall i, entity_pattern_len (drop i s) = None) ->
  protect_from st s = (s, st).
Proof.
  intros H. rewrite <- (app_nil_r s) at 1. rewrite protect_from_copy.
  - unfold protect_from. simpl. by rewrite app_nil_r.
  - intros i _. rewrite app_nil_r. apply H.
Qed.

(** With identifiers that differ from one another, [entity_map] ends
    as the list of the entities met, each under its placeholder. *)
Lemma protect_scanned (text : str) :
  (forall j k, j < k < uuid_calls (protect text).2 ->
               uuid4_hex j <> uuid4_hex k) ->
  scanned 0 text (protect text).1 (entity_map (protect text).2)
  /\ uuid_calls (protect text).2 = length (entity_map (protect text).2).
Proof.
  unfold protect.
  destruct (protect_from_scanned text [] 0) as (out & new & -> & Hsc).
  cbn [fst snd entity_map uuid_calls]. intros Hinj.
  rewrite dict_update_new; [done| |intros k _ Hk; inversion Hk].
  rewrite (scanned_keys _ _ _ _ Hsc). apply drawn_keys_NoDup.
  intros k Hk j Hj. apply Hinj. lia.
Qed.

End Guard.

(** ** The spans of the matches, and the text that is kept *)

Lemma run_length_bound (P : ascii -> bool) (s : str) :
  run_length P s <= length s.
Proof. induction s as [|c s IH]; simpl; [done|]. destruct (P c); lia. Qed.

Lemma class_run_bound (P : ascii -> bool) (text : str) (i : nat) :
  class_run P text i <= length text - i.
Proof.
  unfold class_run. rewrite <- length_drop. apply run_length_bound.
Qed.

Lemma class_at_bound (P : ascii -> bool) (text : str) (i : nat) :
  class_at P text i = true -> i < length text.
Proof.
  intros H. apply class_at_Some in H as (c & Hc & _).
  by eapply lookup_lt_Some.
Qed.

Lemma year_group_bounds (text : str) (i e : nat) :
  year_group text i = Some e -> i + 4 <= e <= length text.
Proof.
  unfold year_group. destruct (4 <=? class_run is_digit text i) eqn:Ed; [|done].
  apply Nat.leb_le in Ed. pose proof (class_run_bound is_digit text i) as Hd.
  intros H. apply greedy_Some in H as (w & Hw & H).
  pose proof (class_run_bound isspace text (i + 4)) as Hs.
  apply optional_Some in H as [H|[Hc H]].
  - destruct (word_boundary text (i + 4 + w)); [|done]. injection H as <-. lia.
  - apply class_at_bound in Hc.
    destruct (word_boundary text (S (i + 4 + w))); [|done]. injection H as <-. lia.
Qed.

(** A match of the search pattern starts where it was tried, has an
    author of two characters or more, white space, and a year. *)
Lemma search_pattern_at_spans (text : str) (s : nat) (m : match_obj) :
  search_pattern_at text s = Some m ->
  m_start m = s /\ s + 2 <= m_g1_end m /\ m_g1_end m < m_g2_start m
  /\ m_g2_start m + 4 <= m_end m /\ m_end m <= length text.
Proof.
  unfold search_pattern_at.
  destruct (word_boundary text s && class_at is_upper_az text s); [|done].
  intros H. apply greedy_Some in H as (n & Hn & H).
  apply greedy_Some in H as (w & Hw & H).
  destruct (year_group text (S s + n + w)) as [e|] eqn:Ey; [|done].
  injection H as <-. apply year_group_bounds in Ey. simpl. lia.
Qed.

Lemma search_pattern_at_well_spanned (text : str) (s : nat) (m : match_obj) :
  search_pattern_at text s = Some m -> m_start m = s /\ well_spanned text m.
Proof.
  intros H. apply search_pattern_at_spans in H. unfold well_spanned. lia.
Qed.

Lemma chained_from (text : str) (a b : nat) (ms : list match_obj) :
  b <= a -> chained text a ms -> chained text b ms.
Proof. destruct ms as [|m ms]; simpl; [done|]. intros Hab (H1 & H2 & H3). split; [lia|done]. Qed.

(** The scan gives the matches from left to right, without overlap. *)
Lemma finditer_scan_chained (at_ : str -> nat -> option match_obj) (text : str) :
  (forall s m, at_ text s = Some m -> m_start m = s /\ well_spanned text m) ->
  forall rest pos skip,
    chained text (pos + skip) (finditer_scan at_ text rest pos skip).
Proof.
  intros Hat. induction rest as [|c rest IH]; intros pos skip; simpl; [done|].
  destruct skip as [|k].
  - destruct (at_ text pos) as [m|] eqn:E.
    + destruct (Hat _ _ E) as [Hs Hw]. simpl. split; [lia|]. split; [done|].
      eapply chained_from; [|apply IH]. unfold well_spanned in Hw. lia.
    + eapply chained_from; [|apply IH]. lia.
  - eapply chained_from; [|apply IH]. lia.
Qed.

Lemma finditer_chained (text : str) :
  chained text 0 (finditer search_pattern_at text).
Proof.
  apply (finditer_scan_chained search_pattern_at text
           (search_pattern_at_well_spanned text) text 0 0).
Qed.

Lemma take_slice (text : str) (i j : nat) :
  i <= j -> take i text ++ slice text i j = take j text.
Proof.
  intros H. unfold slice. rewrite take_take_drop. f_equal. lia.
Qed.

Lemma flat_map_get_text_app (l1 l2 : list node) :
  flat_map get_text (l1 ++ l2) = flat_map get_text l1 ++ flat_map get_text l2.
Proof. apply flat_map_app. Qed.

(** One turn of the loop keeps the text up to the end of the match,
    when the white space that the link branch writes as one space was
    one space. *)
Lemma rewrite_match_keeps_text bib text nc li l m nc' li' l' :
  rewrite_match bib text (nc, li, l) m = Some (nc', li', l') ->
  li <= m_start m -> well_spanned text m ->
  (is_Some (bib !! lookup_key_of (group1 text m) (group2 text m)) ->
   slice text (m_g1_end m) (m_g2_start m) = txt " ") ->
  flat_map get_text nc = take li text ->
  li' = m_end m /\ flat_map get_text nc' = take (m_end m) text.
Proof.
  intros H Hli (H1 & H2 & H3 & H4 & H5) Hspace Hnc. unfold rewrite_match in H.
  assert (Hpre : flat_map get_text
                   (if li <? m_start m
                    then nc ++ [NavigableString (slice text li (m_start m))]
                    else nc) = take (m_start m) text).
  { destruct (li <? m_start m) eqn:E.
    - rewrite flat_map_get_text_app, Hnc. simpl. rewrite app_nil_r.
      by apply take_slice.
    - apply Nat.ltb_ge in E. rewrite Hnc. f_equal. lia. }
  destruct (bib !! lookup_key_of _ _) as [[|e es]|] eqn:Ek; simpl in H; [done| |].
  - injection H as <- <- <-. split; [done|].
    rewrite flat_map_get_text_app, Hpre. simpl. rewrite app_nil_r.
    rewrite <- Hspace by eauto. unfold group1, group2.
    rewrite <- app_assoc, !app_assoc, ?app_nil_r.
    by rewrite !take_slice.
  - injection H as <- <- <-. split; [done|].
    rewrite flat_map_get_text_app, Hpre. simpl. rewrite app_nil_r.
    unfold group0. apply take_slice. lia.
Qed.

Lemma rewrite_matches_keep_text bib text ms :
  forall nc li l nc' li' l',
  rewrite_matches bib text (nc, li, l) ms = Some (nc', li', l') ->
  chained text li ms -> li <= length text ->
  (forall m, m ∈ ms ->
     is_Some (bib !! lookup_key_of (group1 text m) (group2 text m)) ->
     slice text (m_g1_end m) (m_g2_start m) = txt " ") ->
  flat_map get_text nc = take li text ->
  li' <= length text /\ flat_map get_text nc' = take li' text.
Proof.
  induction ms as [|m ms IH]; intros nc li l nc' li' l'; simpl.
  - intros [= <- <- <-]. done.
  - destruct (rewrite_match bib text (nc, li, l) m) as [[[nc1 li1] l1]|] eqn:E1;
      simpl; [|done].
    intros H (Hfrom & Hw & Hch) Hli Hspace Hnc.
    destruct (rewrite_match_keeps_text _ _ _ _ _ _ _ _ _ E1 Hfrom Hw) as [-> Hnc1];
      [intros Hk; apply Hspace; [apply elem_of_cons; by left|done]|done|].
    eapply IH; [exact H|exact Hch| |intros m' Hm'; apply Hspace; apply elem_of_cons; by right|done].
    unfold well_spanned in Hw. lia.
Qed.

(** What a text element is replaced with reads as the element did, as
    long as every citation that gets a link had exactly one space
    between its author and its year. *)
Lemma rewrite_text_keeps_text bib text links out links' :
  rewrite_text bib text links = Some (out, links') ->
  (forall m, m ∈ finditer search_pattern_at text ->
     is_Some (bib !! lookup_key_of (group1 text m) (group2 text m)) ->
     slice text (m_g1_end m) (m_g2_start m) = txt " ") ->
  flat_map get_text out = text.
Proof.
  unfold rewrite_text. intros H Hspace.
  pose proof (finditer_chained text) as Hch.
  destruct (finditer search_pattern_at text) as [|m0 ms] eqn:Ef.
  - injection H as <- <-. simpl. by rewrite app_nil_r.
  - destruct (rewrite_matches bib text ([], 0, links) (m0 :: ms))
      as [[[nc li] l]|] eqn:E; simpl in H; [|done].
    injection H as <- <-.
    destruct (rewrite_matches_keep_text _ _ _ _ _ _ _ _ _ E Hch) as [Hli Hnc];
      [lia|exact Hspace|done|].
    destruct (li <? length text) eqn:El.
    + rewrite flat_map_get_text_app, Hnc. simpl. rewrite app_nil_r.
      unfold slice. rewrite (take_ge (drop li text)) by (rewrite length_drop; lia).
      apply take_drop.
    + apply Nat.ltb_ge in El. rewrite Hnc. apply take_ge. lia.
Qed.

(** A text element in which no citation is found in the index reads as
    before. *)
Lemma rewrite_text_no_link_keeps_text bib text links out links' :
  rewrite_text bib text links = Some (out, links') ->
  (forall m, m ∈ finditer search_pattern_at text ->
     bib !! lookup_key_of (group1 text m) (group2 text m) = None) ->
  flat_map get_text out = text.
Proof.
  intros H Hnone. eapply rewrite_text_keeps_text; [exact H|].
  intros m Hm [es Hes]. rewrite (Hnone m Hm) in Hes. done.
Qed.

(** ** The keys of the two sides *)

(** C1. Key normalization symmetry: the key the indexer computes from
    the entry text "Smith, J. (1999)." and the key the scanner computes
    from the in-text span "Smith 1999" are both "smith1999", and the
    citation is rewritten into the author text followed by a link to
    the entry. *)
Theorem key_normalization_symmetry :
  normalized_key_of (strip (txt "Smith, J. (1999).")) = Some (txt "smith1999")
  /\ (exists m,
        finditer search_pattern_at (txt "Smith 1999") = [m]
        /\ lookup_key_of (group1 (txt "Smith 1999") m) (group2 (txt "Smith 1999") m)
           = txt "smith1999")
  /\ exists bib_data,
       build_bib_data (txt "bib.xhtml") Sample.smith1999 = Some bib_data
       /\ rewrite_text bib_data (txt "Smith 1999") 0
          = Some ([NavigableString (txt "Smith ");
                   Sample.xref "bib.xhtml#ref1" "1999"], 1).
Proof.
  split; [by vm_compute|]. split.
  - eexists. split; by vm_compute.
  - eexists. split; by vm_compute.
Qed.

(** C7. Year-letter suffix: "Smith 1999a" and "Smith 1999" give the
    keys "smith1999a" and "smith1999", which differ; a citation of the
    one is left as it is by an index that holds the other only; and a
    key of the index holds the entries of that very key and no other. *)
Theorem year_letter_suffix_distinct :
  (exists m,
     finditer search_pattern_at (txt "Smith 1999a") = [m]
     /\ lookup_key_of (group1 (txt "Smith 1999a") m) (group2 (txt "Smith 1999a") m)
        = txt "smith1999a")
  /\ (exists m,
        finditer search_pattern_at (txt "Smith 1999") = [m]
        /\ lookup_key_of (group1 (txt "Smith 1999") m) (group2 (txt "Smith 1999") m)
           = txt "smith1999")
  /\ txt "smith1999a" <> txt "smith1999"
  /\ (exists bib_data,
        build_bib_data (txt "bib.xhtml") Sample.smith1999a = Some bib_data
        /\ entry_key (Sample.li "ref1" "Smith, J. (1999a).") = Some (txt "smith1999a")
        /\ rewrite_text bib_data (txt "Smith 1999") 0
           = Some ([NavigableString (txt "Smith 1999")], 0)
        /\ rewrite_text bib_data (txt "Smith 1999a") 0
           = Some ([NavigableString (txt "Smith ");
                    Sample.xref "bib.xhtml#ref1" "1999a"], 1))
  /\ (exists bib_data,
        build_bib_data (txt "bib.xhtml") Sample.smith1999 = Some bib_data
        /\ rewrite_text bib_data (txt "Smith 1999a") 0
           = Some ([NavigableString (txt "Smith 1999a")], 0))
  /\ forall bib_filename bib_soup, exists bib_data,
       build_bib_data bib_filename bib_soup = Some bib_data
       /\ forall key, bib_data !! key
            = appended None (entries_for bib_filename key
                               (soup_find_all_li_id bib_soup)).
Proof.
  split; [eexists; split; by vm_compute|].
  split; [eexists; split; by vm_compute|].
  split; [by vm_compute|].
  split; [eexists; repeat split; by vm_compute|].
  split; [eexists; split; by vm_compute|].
  apply build_bib_data_lookup.
Qed.

(** ** The link rewriter *)

(** C5. On the text "Smith  1999", with two spaces, and an index that
    holds "smith1999", the rewriter gives "Smith " with one space and
    the link "1999": the text of what it gives is "Smith 1999", not the
    text it was given. *)
Theorem whitespace_before_year_collapsed :
  exists bib_data out,
    build_bib_data (txt "bib.xhtml") Sample.smith1999 = Some bib_data
    /\ rewrite_text bib_data (txt "Smith  1999") 0 = Some (out, 1)
    /\ out = [NavigableString (txt "Smith "); Sample.xref "bib.xhtml#ref1" "1999"]
    /\ flat_map get_text out = txt "Smith 1999"
    /\ flat_map get_text out <> txt "Smith  1999".
Proof. do 2 eexists. repeat split; by vm_compute. Qed.

(** C6, as the claim has it: a citation inside [<a><em>...</em></a>]
    is below a hyperlink, and is rewritten all the same. *)
Lemma nested_link_text_rewritten :
  exists bib_data body',
    build_bib_data (txt "bib.xhtml") Sample.smith1999 = Some bib_data
    /\ rewrite_body bib_data Sample.linked_emphasis = Some (body', 1)
    /\ body' = Tag (txt "body") []
                 [Tag (txt "a") [(txt "href", txt "#n1")]
                    [Tag (txt "em") []
                       [NavigableString (txt "Smith ");
                        Sample.xref "bib.xhtml#ref1" "1999"]]]
    /\ body' <> Sample.linked_emphasis.
Proof. do 2 eexists. repeat split; by vm_compute. Qed.

(** C6. No double-linking: the text elements whose parent is a
    hyperlink (or a script or style element) are left as they are, each
    in its place, whatever the index holds. *)
Theorem no_double_linking (bib_data : gmap str (list BibEntry))
    (parent_name name : str) (attrs : list (str * str)) (contents : list node)
    (links : nat) (out : list node) (links' : nat) :
  name ∈ [txt "a"; txt "script"; txt "style"] ->
  rewrite_node bib_data parent_name (Tag name attrs contents) links
    = Some (out, links') ->
  exists contents',
    out = [Tag name attrs contents']
    /\ length contents' = length contents
    /\ forall i s, contents !! i = Some (NavigableString s) ->
                   contents' !! i = Some (NavigableString s).
Proof.
  intros Hname H. simpl in H.
  destruct (rewrite_each _ contents links) as [[cs' l']|] eqn:E; simpl in H; [|done].
  injection H as <- <-. exists cs'. split; [done|].
  eapply rewrite_each_skipped; [|exact E].
  unfold skipped_parent. by apply bool_decide_eq_true.
Qed.

Lemma no_double_linking_witness :
  txt "a" ∈ [txt "a"; txt "script"; txt "style"]
  /\ exists contents',
       [Tag (txt "a") [(txt "href", txt "#n1")] [NavigableString (txt "Smith 1999")]]
         = [Tag (txt "a") [(txt "href", txt "#n1")] contents']
       /\ length contents' = 1
       /\ forall i s,
            [NavigableString (txt "Smith 1999")] !! i = Some (NavigableString s) ->
            contents' !! i = Some (NavigableString s).
Proof.
  split; [apply elem_of_cons; by left|].
  apply (no_double_linking
           {[ txt "smith1999" := [mkBibEntry (txt "ref1") (txt "bib.xhtml")] ]}
           (txt "body") (txt "a") [(txt "href", txt "#n1")]
           [NavigableString (txt "Smith 1999")] 0 _ 0).
  - apply elem_of_cons; by left.
  - reflexivity.
Defined.

(** C10. The text of a link is the year as matched, with the white
    space it has inside, while the key it was looked up with has none:
    for every citation found in a text element whose key is in the
    index, what the element is replaced with holds the link whose only
    content is the second group of the match. *)
Theorem link_text_is_year_as_matched (bib_data : gmap str (list BibEntry))
    (text : str) (links : nat) (out : list node) (links' : nat)
    (m : match_obj) (entry : BibEntry) (others : list BibEntry) :
  rewrite_text bib_data text links = Some (out, links') ->
  m ∈ finditer search_pattern_at text ->
  bib_data !! (lower (group1 text m) ++ remove_whitespace (group2 text m))
    = Some (entry :: others) ->
  Tag (txt "a")
      [(txt "class", txt "xref");
       (txt "href", filename entry ++ txt "#" ++ id entry)]
      [NavigableString (group2 text m)] ∈ out.
Proof. apply rewrite_text_links. Qed.

Lemma link_text_is_year_as_matched_witness :
  let bib_data : gmap str (list BibEntry) :=
    {[ txt "smith1999a" := [mkBibEntry (txt "ref1") (txt "bib.xhtml")] ]} in
  let text := txt "Smith 1999 a" in
  let m := MatchObj 0 5 6 12 in
  let out := [NavigableString (txt "Smith "); Sample.xref "bib.xhtml#ref1" "1999 a"] in
  build_bib_data (txt "bib.xhtml") Sample.smith1999a = Some bib_data
  /\ rewrite_text bib_data text 0 = Some (out, 1)
  /\ finditer search_pattern_at text = [m]
  /\ group2 text m = txt "1999 a"
  /\ lower (group1 text m) ++ remove_whitespace (group2 text m) = txt "smith1999a"
  /\ Sample.xref "bib.xhtml#ref1" "1999 a" ∈ out.
Proof.
  intros bib_data text m out.
  split; [by vm_compute|]. split; [by vm_compute|]. split; [by vm_compute|].
  split; [by vm_compute|]. split; [by vm_compute|].
  apply (link_text_is_year_as_matched bib_data text 0 out 1 m
           (mkBibEntry (txt "ref1") (txt "bib.xhtml")) []).
  - by vm_compute.
  - replace (finditer search_pattern_at text) with [m] by (by vm_compute).
    apply elem_of_cons; by left.
  - by vm_compute.
Defined.

(** ** The index and the tie-break *)

Lemma entries_for_first (fn key : str) (items : list node) (i : nat)
    (item : node) (bib_id : str) :
  list_find (fun it => entry_key it = Some key) items = Some (i, item) ->
  tag_getitem item (txt "id") = Some bib_id ->
  exists others, entries_for fn key items = mkBibEntry bib_id fn :: others.
Proof.
  revert i. induction items as [|it items IH]; intros i; [done|].
  rewrite entries_for_cons. cbn [list_find]. unfold entries_for at 1. simpl.
  destruct (decide (entry_key it = Some key)) as [Hk|Hk].
  - intros [= <- <-] Hid. rewrite bool_decide_eq_true_2 by done.
    unfold entry_of. rewrite Hid. simpl. eauto.
  - rewrite bool_decide_eq_false_2 by done. simpl.
    destruct (list_find _ items) as [[j it']|] eqn:E; simpl; [|done].
    intros [= <- <-] Hid. by eapply IH.
Qed.

(** C2. Tie-break: a match whose key is that of some entries of the
    bibliography is rewritten into the author text, a space, and a link
    to the first of these entries in document order; the letter behind
    the year is part of the key and is not looked at again. *)
Theorem tie_break_first_entry (bib_filename : str) (bib_soup : soup)
    (bib_data : gmap str (list BibEntry)) (text : str)
    (new_content : list node) (last_index links : nat) (m : match_obj)
    (i : nat) (item : node) (bib_id : str) :
  build_bib_data bib_filename bib_soup = Some bib_data ->
  list_find (fun it => entry_key it
                       = Some (lookup_key_of (group1 text m) (group2 text m)))
            (soup_find_all_li_id bib_soup) = Some (i, item) ->
  tag_getitem item (txt "id") = Some bib_id ->
  exists before,
    rewrite_match bib_data text (new_content, last_index, links) m
    = Some (before
              ++ [NavigableString (group1 text m ++ txt " ");
                  Tag (txt "a")
                      [(txt "class", txt "xref");
                       (txt "href", bib_filename ++ txt "#" ++ bib_id)]
                      [NavigableString (group2 text m)]],
            m_end m, S links).
Proof.
  intros Hbuild Hfind Hid.
  destruct (build_bib_data_lookup bib_filename bib_soup) as (d & Hd & Hk).
  rewrite Hbuild in Hd. injection Hd as <-.
  destruct (entries_for_first bib_filename _ _ _ _ _ Hfind Hid) as [others He].
  unfold rewrite_match. rewrite Hk, He. simpl. eauto.
Qed.

Lemma tie_break_first_entry_witness :
  let bib_data : gmap str (list BibEntry) :=
    {[ txt "smith1999" := [mkBibEntry (txt "ref1") (txt "bib.xhtml");
                           mkBibEntry (txt "ref2") (txt "bib.xhtml")] ]} in
  let text := txt "Smith 1999" in
  let m := MatchObj 0 5 6 10 in
  build_bib_data (txt "bib.xhtml") Sample.two_smiths = Some bib_data
  /\ list_find (fun it => entry_key it
                          = Some (lookup_key_of (group1 text m) (group2 text m)))
               (soup_find_all_li_id Sample.two_smiths)
     = Some (0, Sample.li "ref1" "Smith, J. (1999). Early work.")
  /\ tag_getitem (Sample.li "ref1" "Smith, J. (1999). Early work.") (txt "id")
     = Some (txt "ref1")
  /\ exists before,
       rewrite_match bib_data text ([], 0, 0) m
       = Some (before
                 ++ [NavigableString (group1 text m ++ txt " ");
                     Tag (txt "a")
                         [(txt "class", txt "xref");
                          (txt "href", txt "bib.xhtml" ++ txt "#" ++ txt "ref1")]
                         [NavigableString (group2 text m)]],
               m_end m, 1).
Proof.
  intros bib_data text m.
  assert (H1 : build_bib_data (txt "bib.xhtml") Sample.two_smiths = Some bib_data)
    by (by vm_compute).
  assert (H2 : list_find (fun it => entry_key it
                            = Some (lookup_key_of (group1 text m) (group2 text m)))
                 (soup_find_all_li_id Sample.two_smiths)
               = Some (0, Sample.li "ref1" "Smith, J. (1999). Early work."))
    by (by vm_compute).
  assert (H3 : tag_getitem (Sample.li "ref1" "Smith, J. (1999). Early work.")
                 (txt "id") = Some (txt "ref1")) by (by vm_compute).
  split; [exact H1|]. split; [exact H2|]. split; [exact H3|].
  exact (tie_break_first_entry (txt "bib.xhtml") Sample.two_smiths bib_data text
           [] 0 0 m 0 _ (txt "ref1") H1 H2 H3).
Defined.

(** ** The run as a whole *)

Lemma entries_for_no_key (fn key : str) (items : list node) :
  Forall (fun item => entry_key item <> Some key) items ->
  entries_for fn key items = [].
Proof.
  induction 1 as [|item items Hk _ IH]; [done|].
  rewrite entries_for_cons, IH. unfold entries_for. simpl.
  by rewrite bool_decide_eq_false_2.
Qed.

Lemma entries_for_one (fn k key gid : str) (item : node) :
  entry_key item = Some key -> tag_getitem item (txt "id") = Some gid ->
  entries_for fn k [item] = if bool_decide (k = key) then [mkBibEntry gid fn] else [].
Proof.
  intros Hk Hid. unfold entries_for, entry_of. simpl. rewrite Hk, Hid. simpl.
  destruct (decide (k = key)) as [->|Hne].
  - by rewrite !bool_decide_eq_true_2.
  - rewrite !bool_decide_eq_false_2 by congruence. done.
Qed.

(** C4. All-or-nothing on an empty bibliography: when no entry of the
    bibliography gets a key, the run stops at the warning that no valid
    entry was found, whatever the chapter holds; the chapter is neither
    parsed nor rewritten, and nothing is written. *)
Theorem empty_bibliography_fails (uuid4_hex : nat -> str)
    (BeautifulSoup : str -> soup) (decode : soup -> str)
    (chapter_content bib_filename bib_file : str) :
  Forall (fun item => entry_key item = None)
         (soup_find_all_li_id (BeautifulSoup bib_file)) ->
  build_bib_data bib_filename (BeautifulSoup bib_file) = Some ∅
  /\ process_xhtml_files uuid4_hex BeautifulSoup decode
       chapter_content bib_filename bib_file = NoValidEntries.
Proof.
  intros Hnone.
  destruct (build_bib_data_lookup bib_filename (BeautifulSoup bib_file))
    as (d & Hd & Hk).
  assert (d = ∅) as ->.
  { apply map_empty. intros k. rewrite Hk, entries_for_no_key; [done|].
    eapply Forall_impl; [exact Hnone|]. intros item ->. done. }
  split; [exact Hd|]. unfold process_xhtml_files. rewrite Hd.
  by rewrite bool_decide_eq_true_2.
Qed.

Lemma empty_bibliography_fails_witness :
  let bib_file := Sample.decode Sample.none_usable in
  let chapter_content := Sample.decode (Sample.chapter "As Smith 1999 shows") in
  let BeautifulSoup :=
    Sample.parser [Sample.none_usable; Sample.chapter "As Smith 1999 shows"] in
  Forall (fun item => entry_key item = None)
         (soup_find_all_li_id (BeautifulSoup bib_file))
  /\ length (soup_find_all_li_id (BeautifulSoup bib_file)) = 2
  /\ process_xhtml_files Sample.uuids BeautifulSoup Sample.decode
       chapter_content (txt "bib.xhtml") bib_file = NoValidEntries.
Proof.
  intros bib_file chapter_content BeautifulSoup.
  assert (H : Forall (fun item => entry_key item = None)
                (soup_find_all_li_id (BeautifulSoup bib_file))).
  { replace (soup_find_all_li_id (BeautifulSoup bib_file))
      with [Sample.li "ref1" "2001. Anonymous."; Sample.li "ref2" "No year at all"]
      by (by vm_compute).
    repeat constructor; by vm_compute. }
  split; [exact H|]. split; [by vm_compute|].
  exact (proj2 (empty_bibliography_fails Sample.uuids BeautifulSoup Sample.decode
                  chapter_content (txt "bib.xhtml") bib_file H)).
Defined.

(** C8. Skip-not-fail: of two entries, one with a key and one whose
    author part is empty once trimmed, only the first is recorded: the
    index holds that one key, the run does not stop at the bibliography,
    and with a chapter that has a body it writes its output. *)
Theorem malformed_entry_skipped (uuid4_hex : nat -> str)
    (BeautifulSoup : str -> soup) (decode : soup -> str)
    (chapter_content bib_filename bib_file : str)
    (good bad : node) (key : str) (m : match_obj) :
  soup_find_all_li_id (BeautifulSoup bib_file) = [good; bad]
  \/ soup_find_all_li_id (BeautifulSoup bib_file) = [bad; good] ->
  entry_key good = Some key ->
  search citation_pattern_at (strip (get_text bad)) = Some m ->
  strip (group1 (strip (get_text bad)) m) = [] ->
  exists bib_data,
    build_bib_data bib_filename (BeautifulSoup bib_file) = Some bib_data
    /\ dom bib_data = {[ key ]}
    /\ size bib_data = 1
    /\ process_xhtml_files uuid4_hex BeautifulSoup decode
         chapter_content bib_filename bib_file <> NoValidEntries
    /\ (is_Some (soup_body (BeautifulSoup (protect uuid4_hex chapter_content).1)) ->
        exists final_content links_created,
          process_xhtml_files uuid4_hex BeautifulSoup decode
            chapter_content bib_filename bib_file
          = Written final_content links_created).
Proof.
  intros Hitems Hgood Hm Hauthor.
  assert (Hbad : entry_key bad = None).
  { unfold entry_key, normalized_key_of. rewrite Hm.
    by rewrite bool_decide_eq_true_2. }
  destruct (build_bib_data_lookup bib_filename (BeautifulSoup bib_file))
    as (d & Hd & Hk).
  pose proof (soup_find_all_li_id_has_id (BeautifulSoup bib_file)) as Hids.
  assert (Hgid : has_id good).
  { destruct Hitems as [E|E]; rewrite E in Hids;
      apply Forall_forall with (x := good) in Hids; try done;
      repeat constructor. }
  destruct Hgid as [gid Hgid].
  assert (Hlook : forall k, d !! k
            = if bool_decide (k = key) then Some [mkBibEntry gid bib_filename]
              else None).
  { intros k. rewrite Hk.
    assert (E : entries_for bib_filename k (soup_find_all_li_id (BeautifulSoup bib_file))
                = if bool_decide (k = key) then [mkBibEntry gid bib_filename] else []).
    { assert (Eb : entries_for bib_filename k [bad] = []).
      { apply entries_for_no_key. repeat constructor. by rewrite Hbad. }
      destruct Hitems as [-> | ->]; rewrite entries_for_cons, ?Eb,
        (entries_for_one _ _ _ _ _ Hgood Hgid); by rewrite ?app_nil_r. }
    rewrite E. by destruct (bool_decide (k = key)). }
  assert (Heq : d = {[ key := [mkBibEntry gid bib_filename] ]}).
  { apply map_eq. intros k. rewrite Hlook.
    destruct (decide (k = key)) as [->|Hne].
    - by rewrite bool_decide_eq_true_2, lookup_singleton_eq.
    - by rewrite bool_decide_eq_false_2, lookup_singleton_ne. }
  assert (Hne : d <> ∅).
  { rewrite Heq. apply insert_non_empty. }
  exists d. split; [exact Hd|]. split; [by rewrite Heq, dom_singleton_L|].
  split; [by rewrite Heq, map_size_singleton|].
  unfold process_xhtml_files. rewrite Hd.
  rewrite (bool_decide_eq_false_2 _ Hne).
  destruct (protect uuid4_hex chapter_content) as [protected_content st].
  split.
  - destruct (soup_body _) as [body|]; [|done].
    by destruct (rewrite_body d body) as [[body' links]|].
  - cbn [fst]. intros [body Hbody]. rewrite Hbody.
    destruct (rewrite_body_total d _ body
                (build_bib_data_nonempty _ _ _ Hd) Hbody) as [[body' links] ->].
    eauto.
Qed.

Lemma malformed_entry_skipped_witness :
  let bib_file := Sample.decode Sample.one_without_author in
  let chapter_content := Sample.decode (Sample.chapter "As Smith 1999 shows") in
  let BeautifulSoup :=
    Sample.parser [Sample.one_without_author; Sample.chapter "As Smith 1999 shows"] in
  let good := Sample.li "ref1" "Smith, J. (1999)." in
  let bad := Sample.li "ref2" "2001. Anonymous." in
  let m := MatchObj 0 0 0 4 in
  soup_find_all_li_id (BeautifulSoup bib_file) = [good; bad]
  /\ entry_key good = Some (txt "smith1999")
  /\ search citation_pattern_at (strip (get_text bad)) = Some m
  /\ strip (group1 (strip (get_text bad)) m) = []
  /\ is_Some (soup_body (BeautifulSoup (protect Sample.uuids chapter_content).1))
  /\ exists bib_data,
       build_bib_data (txt "bib.xhtml") (BeautifulSoup bib_file) = Some bib_data
       /\ dom bib_data = {[ txt "smith1999" ]}
       /\ size bib_data = 1
       /\ process_xhtml_files Sample.uuids BeautifulSoup Sample.decode
            chapter_content (txt "bib.xhtml") bib_file <> NoValidEntries
       /\ (is_Some (soup_body (BeautifulSoup (protect Sample.uuids chapter_content).1)) ->
           exists final_content links_created,
             process_xhtml_files Sample.uuids BeautifulSoup Sample.decode
               chapter_content (txt "bib.xhtml") bib_file
             = Written final_content links_created).
Proof.
  intros bib_file chapter_content BeautifulSoup good bad m.
  assert (H1 : soup_find_all_li_id (BeautifulSoup bib_file) = [good; bad])
    by (by vm_compute).
  assert (H2 : entry_key good = Some (txt "smith1999")) by (by vm_compute).
  assert (H3 : search citation_pattern_at (strip (get_text bad)) = Some m)
    by (by vm_compute).
  assert (H4 : strip (group1 (strip (get_text bad)) m) = []) by (by vm_compute).
  split; [exact H1|]. split; [exact H2|]. split; [exact H3|]. split; [exact H4|].
  split; [eexists; vm_compute; reflexivity|].
  exact (malformed_entry_skipped Sample.uuids BeautifulSoup Sample.decode
           chapter_content (txt "bib.xhtml") bib_file good bad (txt "smith1999") m
           (or_introl H1) H2 H3 H4).
Defined.

(** ** The entity guard *)

(** C9, as the claim has it: an entity without its semicolon is left
    in the text, and nothing is recorded for it. *)
Lemma entity_without_semicolon_kept :
  protect Sample.uuids (txt "AT&amp T and &#160 more")
  = (txt "AT&amp T and &#160 more", mkGuard [] 0).
Proof. by vm_compute. Qed.

(** C9. Entity protection: the entity pattern matches an ampersand, an
    optional hash, one or more word characters and a semicolon, and
    nothing else; the scan replaces the leftmost match by the
    placeholder made from the next identifier, records the entity under
    that placeholder, and goes on behind the match; a text in which the
    pattern matches nowhere is left as it is, with nothing recorded. *)
Theorem entity_protection_coverage (uuid4_hex : nat -> str) :
  (forall s n,
     entity_pattern_len s = Some n <->
     exists hash w rest,
       s = "&"%char :: hash ++ w ++ ";"%char :: rest
       /\ n = length ("&"%char :: hash ++ w ++ [";"%char])
       /\ (hash = [] \/ hash = ["#"%char])
       /\ w <> [] /\ forallb is_word w = true)
  /\ (forall st pre entity post,
        (forall i, i < length pre ->
                   entity_pattern_len (drop i (pre ++ entity ++ post)) = None) ->
        entity_pattern_len (entity ++ post) = Some (length entity) ->
        protect_from uuid4_hex st (pre ++ entity ++ post)
        = let placeholder := placeholder_of (uuid4_hex (uuid_calls st)) in
          let '(out, st') :=
            protect_from uuid4_hex
              (mkGuard (dict_set (entity_map st) placeholder entity)
                       (S (uuid_calls st))) post in
          (pre ++ placeholder ++ out, st'))
  /\ (forall st s,
        (forall i, entity_pattern_len (drop i s) = None) ->
        protect_from uuid4_hex st s = (s, st)).
Proof.
  split; [|split].
  - intros s n. split; [apply entity_pattern_len_shape|].
    intros (hash & w & rest & -> & -> & Hhash & Hne & Hw).
    by apply entity_pattern_len_complete.
  - intros st pre entity post Hpre Hent.
    rewrite protect_from_copy by done.
    rewrite protect_from_entity by done. simpl.
    by destruct (protect_from _ _ post).
  - apply protect_from_absent.
Qed.

Lemma entity_protection_coverage_witness :
  let placeholder := placeholder_of Sample.hex_a in
  entity_pattern_len (txt "&amp;T") = Some 5
  /\ entity_pattern_len (txt "&amp;T") = Some (length (txt "&amp;"))
  /\ (forall i, i < length (txt "AT") ->
        entity_pattern_len (drop i (txt "AT" ++ txt "&amp;" ++ txt "T")) = None)
  /\ (forall i, entity_pattern_len (drop i (txt "T")) = None)
  /\ protect Sample.uuids (txt "AT" ++ txt "&amp;" ++ txt "T")
     = (txt "AT" ++ placeholder ++ txt "T",
        mkGuard [(placeholder, txt "&amp;")] 1).
Proof.
  intros placeholder.
  destruct (entity_protection_coverage Sample.uuids) as (Hshape & Hstep & Habsent).
  assert (H1 : entity_pattern_len (txt "&amp;T") = Some 5).
  { apply Hshape. exists [], (txt "amp"), (txt "T").
    repeat split; [by left|done]. }
  assert (H2 : forall i, i < length (txt "AT") ->
             entity_pattern_len (drop i (txt "AT" ++ txt "&amp;" ++ txt "T")) = None).
  { intros [|[|i]] Hi; [by vm_compute|by vm_compute|]. cbv in Hi. lia. }
  assert (H3 : forall i, entity_pattern_len (drop i (txt "T")) = None).
  { intros [|[|i]]; by vm_compute. }
  split; [exact H1|]. split; [exact H1|]. split; [exact H2|]. split; [exact H3|].
  unfold protect. rewrite (Hstep _ (txt "AT") (txt "&amp;") (txt "T") H2 H1).
  cbn [uuid_calls entity_map]. rewrite (Habsent _ (txt "T") H3). reflexivity.
Defined.

(** C3, as the claim has it: that no placeholder occurs in the text is
    not enough.  The text here holds no placeholder, but holds the tail
    of the first one behind the second entity; putting the first
    placeholder back takes that tail with the end of the second
    placeholder for an occurrence. *)
Lemma round_trip_fails_without_fresh_identifiers :
  ~ (forall (uuid4_hex : nat -> str) (text : str),
       (forall k, k < uuid_calls (protect uuid4_hex text).2 ->
                  is_uuid_hex (uuid4_hex k) = true) ->
       (forall j k, j < k < uuid_calls (protect uuid4_hex text).2 ->
                    uuid4_hex j <> uuid4_hex k) ->
       (forall k, k < uuid_calls (protect uuid4_hex text).2 ->
                  contains (placeholder_of (uuid4_hex k)) text = false) ->
       restore (entity_map (protect uuid4_hex text).2) (protect uuid4_hex text).1
       = text).
Proof.
  intros H. specialize (H Sample.uuids Sample.text_with_tail).
  assert (E : uuid_calls (protect Sample.uuids Sample.text_with_tail).2 = 2)
    by (by vm_compute).
  rewrite E in H.
  assert (Hrestored :
            restore (entity_map (protect Sample.uuids Sample.text_with_tail).2)
                    (protect Sample.uuids Sample.text_with_tail).1
            = txt "&lt;__ENTITY_11111111111141118111111111111111&lt;")
    by (by vm_compute).
  rewrite Hrestored in H.
  assert (Hne : txt "&lt;__ENTITY_11111111111141118111111111111111&lt;"
                <> Sample.text_with_tail) by (by vm_compute).
  apply Hne, H.
  - intros [|[|k]] Hk; [by vm_compute|by vm_compute|lia].
  - intros [|[|j]] [|[|k]] Hjk; try lia. by vm_compute.
  - intros [|[|k]] Hk; [by vm_compute|by vm_compute|lia].
Qed.

(** C3. Entity round-trip: when the identifiers drawn for a text are
    32 hexadecimal digits each, differ from one another, and do not
    occur in the text, putting the recorded entities back into the
    protected text gives the text again. *)
Theorem entity_round_trip (uuid4_hex : nat -> str) (text : str) :
  (forall k, k < uuid_calls (protect uuid4_hex text).2 ->
             is_uuid_hex (uuid4_hex k) = true) ->
  (forall j k, j < k < uuid_calls (protect uuid4_hex text).2 ->
               uuid4_hex j <> uuid4_hex k) ->
  (forall k, k < uuid_calls (protect uuid4_hex text).2 ->
             contains (uuid4_hex k) text = false) ->
  restore (entity_map (protect uuid4_hex text).2) (protect uuid4_hex text).1
  = text.
Proof.
  intros Hhex Hinj Hfresh.
  destruct (protect_scanned uuid4_hex text Hinj) as [Hsc Hcalls].
  rewrite Hcalls in *.
  apply (scanned_restore uuid4_hex 0 text _ _ Hsc []).
  - intros k Hk. apply Hhex. lia.
  - intros k Hk j Hj. apply Hinj. lia.
  - intros k Hk. apply Hfresh. lia.
Qed.

Lemma entity_round_trip_witness :
  let text := txt "Q&amp;A: 5&#160;7 &amp x" in
  (forall k, k < 2 -> is_uuid_hex (Sample.uuids k) = true)
  /\ (forall j k, j < k < 2 -> Sample.uuids j <> Sample.uuids k)
  /\ (forall k, k < 2 -> contains (Sample.uuids k) text = false)
  /\ protect Sample.uuids text
     = (txt "Q" ++ placeholder_of Sample.hex_a ++ txt "A: 5"
          ++ placeholder_of Sample.hex_b ++ txt "7 &amp x",
        mkGuard [(placeholder_of Sample.hex_a, txt "&amp;");
                 (placeholder_of Sample.hex_b, txt "&#160;")] 2)
  /\ restore (entity_map (protect Sample.uuids text).2) (protect Sample.uuids text).1
     = text.
Proof.
  intros text.
  assert (E : protect Sample.uuids text
              = (txt "Q" ++ placeholder_of Sample.hex_a ++ txt "A: 5"
                   ++ placeholder_of Sample.hex_b ++ txt "7 &amp x",
                 mkGuard [(placeholder_of Sample.hex_a, txt "&amp;");
                          (placeholder_of Sample.hex_b, txt "&#160;")] 2))
    by (by vm_compute).
  assert (H1 : forall k, k < 2 -> is_uuid_hex (Sample.uuids k) = true).
  { intros [|[|k]] Hk; [by vm_compute|by vm_compute|lia]. }
  assert (H2 : forall j k, j < k < 2 -> Sample.uuids j <> Sample.uuids k).
  { intros [|[|j]] [|[|k]] Hjk; try lia. by vm_compute. }
  assert (H3 : forall k, k < 2 -> contains (Sample.uuids k) text = false).
  { intros [|[|k]] Hk; [by vm_compute|by vm_compute|lia]. }
  split; [exact H1|]. split; [exact H2|]. split; [exact H3|]. split; [exact E|].
  apply (entity_round_trip Sample.uuids text); rewrite E; assumption.
Defined.

(** ** Further properties of the scanner *)

Lemma chained_lookup (text : str) (ms : list match_obj) :
  forall from, chained text from ms ->
  Forall (well_spanned text) ms
  /\ (forall m, ms !! 0 = Some m -> from <= m_start m)
  /\ forall i m1 m2, ms !! i = Some m1 -> ms !! S i = Some m2 ->
       m_end m1 <= m_start m2.
Proof.
  induction ms as [|m ms IH]; intros from; simpl.
  - intros _. split; [constructor|]. split; [done|]. intros i m1 m2 H. inversion H.
  - intros (Hfrom & Hw & Hch). destruct (IH _ Hch) as (Hall & Hfirst & Hnext).
    split; [by constructor|]. split; [by intros m0 [= <-]|].
    intros [|i] m1 m2; simpl.
    + intros [= <-] H2. by apply Hfirst.
    + apply Hnext.
Qed.

(** The citations found in a text element come from left to right and
    do not overlap: each one lies inside the text, with its author
    before its year, and ends before the next one starts. *)
Theorem finditer_matches_in_order (text : str) :
  Forall (well_spanned text) (finditer search_pattern_at text)
  /\ forall i m1 m2,
       finditer search_pattern_at text !! i = Some m1 ->
       finditer search_pattern_at text !! S i = Some m2 ->
       m_end m1 <= m_start m2.
Proof.
  destruct (chained_lookup text _ 0 (finditer_chained text)) as (H1 & _ & H2).
  by split.
Qed.

(** ** Further properties of the rewriter *)

(** What a text element is replaced with reads exactly as the element
    did, as long as every citation that gets a link had a single space
    between its author and its year; citations that get no link never
    change the text. *)
Theorem replaced_text_reads_the_same (bib_data : gmap str (list BibEntry))
    (text : str) (links : nat) (out : list node) (links' : nat) :
  rewrite_text bib_data text links = Some (out, links') ->
  (forall m, m ∈ finditer search_pattern_at text ->
     is_Some (bib_data !! lookup_key_of (group1 text m) (group2 text m)) ->
     slice text (m_g1_end m) (m_g2_start m) = txt " ") ->
  flat_map get_text out = text.
Proof. apply rewrite_text_keeps_text. Qed.

Lemma replaced_text_reads_the_same_witness :
  let bib_data : gmap str (list BibEntry) :=
    {[ txt "smith1999" := [mkBibEntry (txt "ref1") (txt "bib.xhtml")] ]} in
  let text := txt "See Smith 1999, not Jones   2001." in
  let out := [NavigableString (txt "See "); NavigableString (txt "Smith ");
              Sample.xref "bib.xhtml#ref1" "1999"; NavigableString (txt ", not ");
              NavigableString (txt "Jones   2001"); NavigableString (txt ".")] in
  rewrite_text bib_data text 0 = Some (out, 1)
  /\ finditer search_pattern_at text = [MatchObj 4 9 10 14; MatchObj 20 25 28 32]
  /\ flat_map get_text out = text.
Proof.
  intros bib_data text out.
  assert (H1 : rewrite_text bib_data text 0 = Some (out, 1)) by (by vm_compute).
  assert (H2 : finditer search_pattern_at text
               = [MatchObj 4 9 10 14; MatchObj 20 25 28 32]) by (by vm_compute).
  split; [exact H1|]. split; [exact H2|].
  apply (replaced_text_reads_the_same bib_data text 0 out 1 H1).
  intros m Hm. rewrite H2 in Hm.
  apply elem_of_cons in Hm as [->|Hm]; [intros _; by vm_compute|].
  apply elem_of_cons in Hm as [->|Hm]; [|inversion Hm].
  intros [es Hes]. by vm_compute in Hes.
Defined.

(** The number of matches of a list whose key is in the index. *)
Lemma rewrite_matches_count bib text ms :
  forall nc li l nc' li' l',
  rewrite_matches bib text (nc, li, l) ms = Some (nc', li', l') ->
  l' = l + length (filter (fun m => is_Some
                             (bib !! lookup_key_of (group1 text m) (group2 text m)))
                          ms).
Proof.
  induction ms as [|m ms IH]; intros nc li l nc' li' l'; simpl.
  - intros [= <- <- <-]. lia.
  - destruct (rewrite_match bib text (nc, li, l) m) as [[[nc1 li1] l1]|] eqn:E1;
      simpl; [|done].
    intros H. apply IH in H as ->. unfold rewrite_match in E1.
    destruct (bib !! lookup_key_of _ _) as [[|e es]|] eqn:Ek; simpl in E1; [done| |].
    + injection E1 as <- <- <-. rewrite filter_cons_True by (rewrite Ek; eauto).
      simpl. lia.
    + injection E1 as <- <- <-.
      rewrite filter_cons_False by (rewrite Ek; by intros [? ?]). lia.
Qed.

(** The counter [links_created] goes up by the number of citations of
    the text element whose key is in the index: one per link made. *)
Theorem links_created_counts_indexed_citations
    (bib_data : gmap str (list BibEntry)) (text : str) (links : nat)
    (out : list node) (links' : nat) :
  rewrite_text bib_data text links = Some (out, links') ->
  links' = links
           + length (filter (fun m => is_Some
                               (bib_data !! lookup_key_of (group1 text m)
                                                          (group2 text m)))
                            (finditer search_pattern_at text)).
Proof.
  unfold rewrite_text. intros H.
  destruct (finditer search_pattern_at text) as [|m0 ms] eqn:Ef.
  - injection H as <- <-. simpl. lia.
  - destruct (rewrite_matches bib_data text ([], 0, links) (m0 :: ms))
      as [[[nc li] l]|] eqn:E; simpl in H; [|done].
    injection H as <- <-. by apply rewrite_matches_count in E.
Qed.

Lemma links_created_counts_indexed_citations_witness :
  let bib_data : gmap str (list BibEntry) :=
    {[ txt "smith1999" := [mkBibEntry (txt "ref1") (txt "bib.xhtml")] ]} in
  let text := txt "Smith 1999, Jones 2001 and Smith 1999 again" in
  exists out,
    rewrite_text bib_data text 5 = Some (out, 7)
    /\ 7 = 5 + length (filter (fun m => is_Some
                                 (bib_data !! lookup_key_of (group1 text m)
                                                            (group2 text m)))
                              (finditer search_pattern_at text)).
Proof.
  intros bib_data text. eexists.
  assert (H : rewrite_text bib_data text 5
              = Some ([NavigableString (txt "Smith ");
                       Sample.xref "bib.xhtml#ref1" "1999";
                       NavigableString (txt ", ");
                       NavigableString (txt "Jones 2001 ");
                       NavigableString (txt "and ");
                       NavigableString (txt "Smith ");
                       Sample.xref "bib.xhtml#ref1" "1999 ";
                       NavigableString (txt "again")], 7)).
  { by vm_compute. }
  split; [exact H|].
  exact (links_created_counts_indexed_citations bib_data text 5 _ 7 H).
Defined.

(** ** Further properties of the index and of the run *)

Lemma entries_for_elem (fn key : str) (items : list node) (e : BibEntry) :
  e ∈ entries_for fn key items ->
  exists item, item ∈ items /\ entry_key item = Some key
    /\ tag_getitem item (txt "id") = Some (id e) /\ filename e = fn.
Proof.
  unfold entries_for. rewrite list_elem_of_omap. intros (item & Hin & H).
  exists item. split; [done|].
  destruct (bool_decide (entry_key item = Some key)) eqn:E; [|done].
  apply bool_decide_eq_true in E. split; [done|]. unfold entry_of in H.
  destruct (tag_getitem item (txt "id")) as [i|]; [|done].
  simpl in H. injection H as <-. done.
Qed.

(** The index that is built: no key holds an empty sequence, and every
    entry under a key stands for a list item of the bibliography that
    has this identifier and this key, in the document named. *)
Theorem bib_data_entries_come_from_items (bib_filename : str) (bib_soup : soup)
    (bib_data : gmap str (list BibEntry)) (key : str) (entries : list BibEntry) :
  build_bib_data bib_filename bib_soup = Some bib_data ->
  bib_data !! key = Some entries ->
  entries <> []
  /\ forall e, e ∈ entries ->
       filename e = bib_filename
       /\ exists item, item ∈ soup_find_all_li_id bib_soup
            /\ tag_getitem item (txt "id") = Some (id e)
            /\ normalized_key_of (strip (get_text item)) = Some key.
Proof.
  intros Hbuild Hk.
  destruct (build_bib_data_lookup bib_filename bib_soup) as (d & Hd & Hlook).
  rewrite Hbuild in Hd. injection Hd as <-. rewrite Hlook in Hk.
  destruct (entries_for bib_filename key (soup_find_all_li_id bib_soup))
    as [|e0 es] eqn:E; [done|].
  injection Hk as <-. split; [done|]. intros e He. rewrite <- E in He.
  apply entries_for_elem in He as (item & Hin & Hkey & Hid & Hfn). eauto.
Qed.

Lemma bib_data_entries_come_from_items_witness :
  let bib_data : gmap str (list BibEntry) :=
    {[ txt "smith1999" := [mkBibEntry (txt "ref1") (txt "bib.xhtml");
                           mkBibEntry (txt "ref2") (txt "bib.xhtml")] ]} in
  let entries := [mkBibEntry (txt "ref1") (txt "bib.xhtml");
                  mkBibEntry (txt "ref2") (txt "bib.xhtml")] in
  build_bib_data (txt "bib.xhtml") Sample.two_smiths = Some bib_data
  /\ bib_data !! txt "smith1999" = Some entries
  /\ entries <> []
  /\ forall e, e ∈ entries ->
       filename e = txt "bib.xhtml"
       /\ exists item, item ∈ soup_find_all_li_id Sample.two_smiths
            /\ tag_getitem item (txt "id") = Some (id e)
            /\ normalized_key_of (strip (get_text item)) = Some (txt "smith1999").
Proof.
  intros bib_data entries.
  assert (H1 : build_bib_data (txt "bib.xhtml") Sample.two_smiths = Some bib_data)
    by (by vm_compute).
  assert (H2 : bib_data !! txt "smith1999" = Some entries) by (by vm_compute).
  split; [exact H1|]. split; [exact H2|].
  exact (bib_data_entries_come_from_items (txt "bib.xhtml") Sample.two_smiths
           bib_data (txt "smith1999") entries H1 H2).
Defined.

Lemma classic_items (items : list node) :
  (exists item, item ∈ items /\ is_Some (normalized_key_of (strip (get_text item))))
  \/ Forall (fun item => normalized_key_of (strip (get_text item)) = None) items.
Proof.
  induction items as [|item items [(it & Hin & Hk)|IH]].
  - right. constructor.
  - left. exists it. split; [by apply elem_of_cons; right|done].
  - destruct (normalized_key_of (strip (get_text item))) as [k|] eqn:E.
    + left. exists item. split; [apply elem_of_cons; by left|]. rewrite E. eauto.
    + right. by constructor.
Qed.


(** The run writes its output exactly when some list item of the
    bibliography with an identifier gets a key and the protected
    chapter, once parsed, has a body. *)
Theorem run_writes_iff (uuid4_hex : nat -> str)
    (BeautifulSoup : str -> soup) (decode : soup -> str)
    (chapter_content bib_filename bib_file : str) :
  (exists final_content links_created,
     process_xhtml_files uuid4_hex BeautifulSoup decode
       chapter_content bib_filename bib_file
     = Written final_content links_created)
  <->
  (exists item, item ∈ soup_find_all_li_id (BeautifulSoup bib_file)
                /\ is_Some (normalized_key_of (strip (get_text item))))
  /\ is_Some (soup_body (BeautifulSoup (protect uuid4_hex chapter_content).1)).
Proof.
  unfold process_xhtml_files.
  destruct (build_bib_data_lookup bib_filename (BeautifulSoup bib_file))
    as (d & Hd & Hlook).
  rewrite Hd.
  pose proof (soup_find_all_li_id_has_id (BeautifulSoup bib_file)) as Hids.
  assert (Hempty : d = ∅ <->
            ~ exists item, item ∈ soup_find_all_li_id (BeautifulSoup bib_file)
                /\ is_Some (normalized_key_of (strip (get_text item)))).
  { split.
    - intros -> (item & Hin & [k Hk]).
      specialize (Hlook k). rewrite lookup_empty in Hlook.
      rewrite Forall_forall in Hids. destruct (Hids item Hin) as [i Hi].
      assert (He : mkBibEntry i bib_filename
                   ∈ entries_for bib_filename k
                       (soup_find_all_li_id (BeautifulSoup bib_file))).
      { unfold entries_for. apply list_elem_of_omap. exists item. split; [done|].
        unfold entry_key. rewrite Hk, bool_decide_eq_true_2 by done.
        unfold entry_of. by rewrite Hi. }
      destruct (entries_for _ _ _); [inversion He|done].
    - intros Hnone. apply map_empty. intros k. rewrite Hlook.
      rewrite entries_for_no_key; [done|].
      apply Forall_forall. intros item Hin Hk. apply Hnone.
      exists item. split; [done|]. unfold entry_key in Hk. rewrite Hk. eauto. }
  destruct (protect uuid4_hex chapter_content) as [protected_content st].
  cbn [fst].
  destruct (decide (d = ∅)) as [He|Hne].
  - rewrite bool_decide_eq_true_2 by done. split.
    + by intros (? & ? & ?).
    + intros [Hex _]. by apply Hempty in Hex.
  - rewrite bool_decide_eq_false_2 by done.
    assert (Hex : exists item, item ∈ soup_find_all_li_id (BeautifulSoup bib_file)
                    /\ is_Some (normalized_key_of (strip (get_text item)))).
    { destruct (classic_items (soup_find_all_li_id (BeautifulSoup bib_file)))
        as [H|H]; [done|]. exfalso. apply Hne, Hempty.
      intros (item & Hin & Hk). rewrite Forall_forall in H.
      specialize (H item Hin). rewrite H in Hk. by destruct Hk. }
    destruct (soup_body _) as [body|] eqn:Hbody.
    + destruct (rewrite_body_total d _ body
                  (build_bib_data_nonempty _ _ _ Hd) Hbody) as [[body' links] ->].
      split; eauto.
    + split; [by intros (? & ? & ?)|]. intros [_ [? ?]]. done.
Qed.

(** ** Further properties of the entity guard *)

Lemma entity_pattern_len_ampersand (s : str) (n : nat) :
  entity_pattern_len s = Some n -> "&"%char ∈ s.
Proof.
  intros H. apply entity_pattern_len_shape in H as (hash & w & rest & -> & _).
  apply elem_of_cons. by left.
Qed.

(** A chapter without an ampersand goes to the parser as it is, with
    no identifier drawn and nothing recorded, and what the serializer
    gives is the output of the run, unchanged. *)
Theorem chapter_without_ampersand_untouched (uuid4_hex : nat -> str)
    (chapter_content : str) :
  "&"%char ∉ chapter_content ->
  protect uuid4_hex chapter_content = (chapter_content, mkGuard [] 0)
  /\ forall final_html,
       restore (entity_map (protect uuid4_hex chapter_content).2) final_html
       = final_html.
Proof.
  intros Hamp.
  assert (H : protect uuid4_hex chapter_content = (chapter_content, mkGuard [] 0)).
  { apply protect_from_absent. intros i.
    destruct (entity_pattern_len (drop i chapter_content)) as [n|] eqn:E; [|done].
    exfalso. apply Hamp. apply entity_pattern_len_ampersand in E.
    rewrite <- (take_drop i chapter_content). apply elem_of_app. by right. }
  split; [exact H|]. intros final_html. by rewrite H.
Qed.

Lemma chapter_without_ampersand_untouched_witness :
  let chapter_content := txt "<p>As Smith 1999 shows; see p. 5</p>" in
  ("&"%char ∉ chapter_content)
  /\ protect Sample.uuids chapter_content = (chapter_content, mkGuard [] 0)
  /\ forall final_html,
       restore (entity_map (protect Sample.uuids chapter_content).2) final_html
       = final_html.
Proof.
  intros chapter_content.
  assert (H : "&"%char ∉ chapter_content).
  { apply (bool_decide_unpack _). by vm_compute. }
  split; [exact H|].
  exact (chapter_without_ampersand_untouched Sample.uuids chapter_content H).
Defined.

Lemma dict_set_elem (d : list (str * str)) (k v p e : str) :
  (p, e) ∈ dict_set d k v -> (p, e) ∈ d \/ (p, e) = (k, v).
Proof.
  induction d as [|[k' v'] d IH]; simpl.
  - intros H. apply list_elem_of_singleton in H. by right.
  - destruct (bool_decide (k' = k)) eqn:E.
    + apply bool_decide_eq_true in E as ->. intros H.
      apply elem_of_cons in H as [H|H]; [by right|].
      left. apply elem_of_cons. by right.
    + intros H. apply elem_of_cons in H as [H|H].
      * left. apply elem_of_cons. by left.
      * destruct (IH H) as [H'|H']; [|by right].
        left. apply elem_of_cons. by right.
Qed.

Lemma dict_update_elem (new : list (str * str)) :
  forall d p e, (p, e) ∈ dict_update d new -> (p, e) ∈ d \/ (p, e) ∈ new.
Proof.
  induction new as [|[k v] new IH]; intros d p e.
  - by left.
  - unfold dict_update. simpl. fold (dict_update (dict_set d k v) new).
    intros H. apply IH in H as [H|H].
    + apply dict_set_elem in H as [H|H]; [by left|].
      right. rewrite H. apply elem_of_cons. by left.
    + right. apply elem_of_cons. by right.
Qed.

Lemma entity_alone (entity s : str) :
  entity_pattern_len (entity ++ s) = Some (length entity) ->
  entity_pattern_len entity = Some (length entity).
Proof.
  intros H. apply entity_pattern_len_shape in H
    as (hash & w & rest & Heq & Hlen & Hhash & Hne & Hw).
  assert (He : entity = "&"%char :: hash ++ w ++ [";"%char]).
  { apply (f_equal (take (length entity))) in Heq.
    rewrite take_app_length, Hlen in Heq.
    change ("&"%char :: hash ++ w ++ ";"%char :: rest)
      with (("&"%char :: hash) ++ w ++ [";"%char] ++ rest) in Heq.
    change ("&"%char :: hash ++ w ++ [";"%char])
      with (("&"%char :: hash) ++ w ++ [";"%char]) in Heq.
    rewrite !app_assoc in Heq. rewrite take_app_length in Heq.
    rewrite Heq. by rewrite <- !app_assoc. }
  rewrite He. by apply entity_pattern_len_complete.
Qed.

Lemma scanned_entries (uuid4_hex : nat -> str) n s out new :
  scanned uuid4_hex n s out new ->
  forall p e, (p, e) ∈ new ->
    exists k, n <= k < n + length new
      /\ p = placeholder_of (uuid4_hex k)
      /\ entity_pattern_len e = Some (length e)
      /\ contains e s = true.
Proof.
  induction 1 as [n|n c s out new Hnone Hsc IH|n entity s out new Hlen Hsc IH];
    intros p e Hin.
  - inversion Hin.
  - destruct (IH p e Hin) as (k & Hk & Hp & He & Hc). exists k.
    split; [done|]. split; [done|]. split; [done|].
    change (c :: s) with ([c] ++ s). by apply contains_app_r.
  - apply elem_of_cons in Hin as [[= -> ->]|Hin].
    + exists n. simpl. split; [lia|]. split; [done|].
      split; [by eapply entity_alone|]. apply contains_spec. by exists [], s.
    + destruct (IH p e Hin) as (k & Hk & Hp & He & Hc). exists k.
      simpl. split; [lia|]. split; [done|]. split; [done|].
      by apply contains_app_r.
Qed.

(** What [entity_map] holds at the end: every key is the placeholder
    made from one of the identifiers drawn, and every value is an
    entity of the chapter, from its ampersand to its semicolon. *)
Theorem entity_map_holds_entities (uuid4_hex : nat -> str) (chapter_content : str)
    (placeholder entity : str) :
  (placeholder, entity) ∈ entity_map (protect uuid4_hex chapter_content).2 ->
  (exists k, k < uuid_calls (protect uuid4_hex chapter_content).2
             /\ placeholder = placeholder_of (uuid4_hex k))
  /\ entity_pattern_len entity = Some (length entity)
  /\ contains entity chapter_content = true.
Proof.
  unfold protect.
  destruct (protect_from_scanned uuid4_hex chapter_content [] 0)
    as (out & new & -> & Hsc).
  cbn [snd entity_map uuid_calls]. intros H.
  apply dict_update_elem in H as [H|H]; [inversion H|].
  destruct (scanned_entries _ _ _ _ _ Hsc _ _ H) as (k & Hk & Hp & He & Hc).
  split; [exists k; split; [lia|done]|]. done.
Qed.

Lemma entity_map_holds_entities_witness :
  let chapter_content := txt "Q&amp;A: 5&#160;7 &amp x" in
  (placeholder_of Sample.hex_b, txt "&#160;")
    ∈ entity_map (protect Sample.uuids chapter_content).2
  /\ (exists k, k < uuid_calls (protect Sample.uuids chapter_content).2
                /\ placeholder_of Sample.hex_b = placeholder_of (Sample.uuids k))
  /\ entity_pattern_len (txt "&#160;") = Some (length (txt "&#160;"))
  /\ contains (txt "&#160;") chapter_content = true.
Proof.
  intros chapter_content.
  assert (H : (placeholder_of Sample.hex_b, txt "&#160;")
                ∈ entity_map (protect Sample.uuids chapter_content).2).
  { replace (entity_map (protect Sample.uuids chapter_content).2)
      with ([(placeholder_of Sample.hex_a, txt "&amp;");
             (placeholder_of Sample.hex_b, txt "&#160;")])
      by (by vm_compute).
    apply elem_of_cons. right. apply elem_of_cons. by left. }
  split; [exact H|].
  exact (entity_map_holds_entities Sample.uuids chapter_content _ _ H).
Defined.

(** ** Further properties of the patterns *)

Lemma lazy_Some {A} (more n : nat) (k : nat -> option A) (r : A) :
  lazy more n k = Some r -> exists i, n <= i <= n + more /\ k i = Some r.
Proof.
  revert n. induction more as [|more IH]; intros n; simpl.
  - destruct (k n) eqn:E; [|done]. intros [= ->]. exists n. split; [lia|done].
  - destruct (k n) eqn:E.
    + intros [= ->]. exists n. split; [lia|done].
    + intros H. apply IH in H as (i & Hi & Hk). exists i. split; [lia|done].
Qed.

(** An entry text without four digits in a row has no year for the
    citation pattern: the entry gets no key and is not recorded. *)
Theorem entry_without_year_gets_no_key (item_text : str) :
  (forall i, class_run is_digit item_text i < 4) ->
  search citation_pattern_at item_text = None
  /\ normalized_key_of item_text = None.
Proof.
  intros Hrun.
  assert (H : search citation_pattern_at item_text = None).
  { destruct (search citation_pattern_at item_text) as [m|] eqn:E; [|done].
    exfalso. unfold search in E. apply lazy_Some in E as (s & _ & E).
    unfold citation_pattern_at in E. destruct (s =? 0); [|done].
    apply lazy_Some in E as (i & _ & E).
    destruct (word_boundary item_text i); [|done].
    destruct (year_group item_text i) as [e|] eqn:Ey; [|done].
    unfold year_group in Ey.
    destruct (4 <=? class_run is_digit item_text i) eqn:E4; [|done].
    apply Nat.leb_le in E4. specialize (Hrun i). lia. }
  split; [exact H|]. unfold normalized_key_of. by rewrite H.
Qed.

Lemma entry_without_year_gets_no_key_witness :
  let item_text := txt "Livy, 199 BC, vol. 12" in
  (forall i, class_run is_digit item_text i < 4)
  /\ search citation_pattern_at item_text = None
  /\ normalized_key_of item_text = None.
Proof.
  intros item_text.
  assert (H : forall i, class_run is_digit item_text i < 4).
  { intros i. do 22 (destruct i as [|i]; [vm_compute; lia|]). vm_compute. lia. }
  split; [exact H|]. exact (entry_without_year_gets_no_key item_text H).
Defined.

Lemma digit_not_space (c : ascii) : is_digit c = true -> isspace c = false.
Proof. destruct c as [[] [] [] [] [] [] [] []]; by vm_compute. Qed.

Lemma lower_az_not_space (c : ascii) : is_lower_az c = true -> isspace c = false.
Proof. destruct c as [[] [] [] [] [] [] [] []]; by vm_compute. Qed.

Lemma remove_whitespace_app (s1 s2 : str) :
  remove_whitespace (s1 ++ s2) = remove_whitespace s1 ++ remove_whitespace s2.
Proof. unfold remove_whitespace. apply filter_app. Qed.

Lemma remove_whitespace_spaces (s : str) :
  forallb isspace s = true -> remove_whitespace s = [].
Proof.
  unfold remove_whitespace. induction s as [|c s IH]; simpl; [done|].
  rewrite andb_true_iff. intros [Hc Hs].
  rewrite filter_cons_False by (by rewrite Hc). by apply IH.
Qed.

Lemma remove_whitespace_none (P : ascii -> bool) (s : str) :
  (forall c, P c = true -> isspace c = false) ->
  forallb P s = true -> remove_whitespace s = s.
Proof.
  intros HP. unfold remove_whitespace. induction s as [|c s IH]; simpl; [done|].
  rewrite andb_true_iff. intros [Hc Hs].
  rewrite filter_cons_True by (by apply HP). f_equal. by apply IH.
Qed.

(** What the year group matches: four digits, white space, and at most
    one lowercase letter. *)
Lemma year_group_shape (text : str) (i e : nat) :
  year_group text i = Some e ->
  exists digits ws letter,
    slice text i e = digits ++ ws ++ letter
    /\ length digits = 4 /\ forallb is_digit digits = true
    /\ forallb isspace ws = true
    /\ length letter <= 1 /\ forallb is_lower_az letter = true.
Proof.
  unfold year_group. destruct (4 <=? class_run is_digit text i) eqn:Ed; [|done].
  apply Nat.leb_le in Ed. intros H. apply greedy_Some in H as (w & Hw & H).
  destruct (run_length_take is_digit (drop i text) 4 Ed) as [Hd4 Hdigits].
  assert (Hdrop : drop (i + 4) text = drop 4 (drop i text)) by (by rewrite drop_drop).
  destruct (run_length_take isspace (drop (i + 4) text) w) as [Hwl Hws];
    [unfold class_run in Hw; lia|].
  exists (take 4 (drop i text)), (take w (drop (i + 4) text)).
  apply optional_Some in H as [H|[Hc H]].
  - destruct (word_boundary text (i + 4 + w)); [|done]. injection H as <-.
    exists []. rewrite app_nil_r.
    split; [|split; [done|]; split; [done|]; split; [done|];
             split; [simpl; lia|done]].
    unfold slice. rewrite Hdrop, take_take_drop. f_equal. lia.
  - destruct (word_boundary text (S (i + 4 + w))); [|done]. injection H as <-.
    apply class_at_Some in Hc as (c & Hc & Hlow). exists [c].
    split; [|split; [done|]; split; [done|]; split; [done|];
             split; [simpl; lia|simpl; by rewrite Hlow]].
    unfold slice.
    assert (Hlast : take 1 (drop (i + 4 + w) text) = [c]).
    { rewrite (drop_S _ _ _ Hc). done. }
    rewrite <- Hlast.
    assert (Hdrop2 : drop (i + 4 + w) text = drop w (drop (i + 4) text))
      by (by rewrite drop_drop).
    rewrite Hdrop2, take_take_drop, Hdrop, take_take_drop. f_equal. lia.
Qed.

Lemma slice_app (text : str) (i j k : nat) :
  i <= j -> j <= k -> slice text i j ++ slice text j k = slice text i k.
Proof.
  intros Hij Hjk. unfold slice.
  replace (drop j text) with (drop (j - i) (drop i text))
    by (rewrite drop_drop; f_equal; lia).
  rewrite take_take_drop. f_equal. lia.
Qed.

(** What a citation is: a capital letter and one or more letters or
    apostrophes, white space, then four digits, white space and at most
    one lowercase letter; its lookup key is the author in lower case,
    the digits and the letter. *)
Theorem citation_match_shape (text : str) (s : nat) (m : match_obj) :
  search_pattern_at text s = Some m ->
  exists capital rest between digits ws letter,
    group0 text m = group1 text m ++ between ++ group2 text m
    /\ group1 text m = capital :: rest
    /\ is_upper_az capital = true
    /\ rest <> [] /\ forallb is_name_char rest = true
    /\ between <> [] /\ forallb isspace between = true
    /\ group2 text m = digits ++ ws ++ letter
    /\ length digits = 4 /\ forallb is_digit digits = true
    /\ forallb isspace ws = true
    /\ length letter <= 1 /\ forallb is_lower_az letter = true
    /\ lookup_key_of (group1 text m) (group2 text m)
       = lower (capital :: rest) ++ digits ++ letter.
Proof.
  intros Hm. pose proof (search_pattern_at_spans text s m Hm) as Hspans.
  unfold search_pattern_at in Hm.
  destruct (word_boundary text s && class_at is_upper_az text s) eqn:Eb; [|done].
  apply andb_true_iff in Eb as [_ Hcap].
  apply class_at_Some in Hcap as (capital & Hc & Hup).
  apply greedy_Some in Hm as (n & Hn & Hm).
  apply greedy_Some in Hm as (w & Hw & Hm).
  destruct (year_group text (S s + n + w)) as [e|] eqn:Ey; [|done].
  injection Hm as <-. simpl in Hspans.
  destruct (year_group_shape _ _ _ Ey)
    as (digits & ws & letter & Hy & Hd4 & Hdig & Hws & Hl1 & Hlow).
  destruct (run_length_take is_name_char (drop (S s) text) n) as [Hnl Hname];
    [unfold class_run in Hn; lia|].
  destruct (run_length_take isspace (drop (S s + n) text) w) as [Hwl Hspace];
    [unfold class_run in Hw; lia|].
  exists capital, (take n (drop (S s) text)), (take w (drop (S s + n) text)),
    digits, ws, letter.
  unfold group0, group1, group2. cbn [m_start m_g1_end m_g2_start m_end].
  assert (Hg1 : slice text s (S s + n) = capital :: take n (drop (S s) text)).
  { unfold slice. rewrite (drop_S _ _ _ Hc).
    replace (S s + n - s) with (S n) by lia. done. }
  assert (Hbetween : slice text (S s + n) (S s + n + w)
                     = take w (drop (S s + n) text)).
  { unfold slice. f_equal. lia. }
  split.
  { rewrite <- Hbetween, slice_app by lia. by rewrite slice_app by lia. }
  split; [exact Hg1|]. split; [exact Hup|].
  split; [intros E; rewrite E in Hnl; simpl in Hnl; lia|].
  split; [exact Hname|].
  split; [intros E; rewrite E in Hwl; simpl in Hwl; lia|].
  split; [exact Hspace|]. split; [exact Hy|].
  split; [exact Hd4|]. split; [exact Hdig|]. split; [exact Hws|].
  split; [exact Hl1|]. split; [exact Hlow|].
  unfold lookup_key_of.
  change (slice text s (S (s + n))) with (slice text s (S s + n)).
  change (slice text (S (s + n + w)) e) with (slice text (S s + n + w) e).
  rewrite Hg1, Hy. f_equal.
  rewrite !remove_whitespace_app, (remove_whitespace_spaces ws Hws).
  rewrite (remove_whitespace_none is_digit digits digit_not_space Hdig).
  by rewrite (remove_whitespace_none is_lower_az letter lower_az_not_space Hlow).
Qed.

Lemma citation_match_shape_witness :
  let text := txt "cf. O'Neil  1987 b, p. 3" in
  let m := MatchObj 4 10 12 18 in
  search_pattern_at text 4 = Some m
  /\ group1 text m = txt "O'Neil"
  /\ group2 text m = txt "1987 b"
  /\ lookup_key_of (group1 text m) (group2 text m) = txt "o'neil1987b"
  /\ exists capital rest between digits ws letter,
       group0 text m = group1 text m ++ between ++ group2 text m
       /\ group1 text m = capital :: rest
       /\ is_upper_az capital = true
       /\ rest <> [] /\ forallb is_name_char rest = true
       /\ between <> [] /\ forallb isspace between = true
       /\ group2 text m = digits ++ ws ++ letter
       /\ length digits = 4 /\ forallb is_digit digits = true
       /\ forallb isspace ws = true
       /\ length letter <= 1 /\ forallb is_lower_az letter = true
       /\ lookup_key_of (group1 text m) (group2 text m)
          = lower (capital :: rest) ++ digits ++ letter.
Proof.
  intros text m.
  assert (H : search_pattern_at text 4 = Some m) by (by vm_compute).
  split; [exact H|]. split; [by vm_compute|]. split; [by vm_compute|].
  split; [by vm_compute|].
  exact (citation_match_shape text 4 m H).
Defined.
